(** * pandora-jar: the secrets loader and its command-line front end

    A shallow embedding of [secrets-loader.ts] (class [SecretsLoader] and
    the helper [execWithStreaming]) and of the [run] action of [cli.ts],
    followed by the properties of the fallback chain, of the backup file
    format, of environment resolution and of polling.

    Conventions of the embedding.
    - A JavaScript string is a [string]: a sequence of UTF-16 code units
      in the range U+0000..U+00FF.  [trim], [toLowerCase], [split],
      [indexOf], [substring], [startsWith] and [includes] are written
      out on that range.
    - A plain object used as a dictionary ([Secrets], [process.env]) is
      a [gmap string string].  Objects live in a heap, [this.secrets]
      is a reference into it, so that sharing is visible.
    - An [async] method is a computation in a state monad whose result
      is a value, a thrown error, or a promise that never settles.
    - What the outside world answers (the SDK, the child processes, the
      disk) is an argument of the methods. *)

From Stdlib Require Import String Ascii ZArith List Bool Lia.
From stdpp Require Import base tactics option list gmap strings pretty.

Local Open Scope string_scope.

(** ** JavaScript strings *)

Module JsString.

(** White space of [String.prototype.trim] below U+0100: TAB, LF, VT, FF,
    CR, SPACE and NBSP. *)
Definition isWhiteSpace (c : ascii) : bool :=
  let n := nat_of_ascii c in
  (Nat.leb 9 n && Nat.leb n 13) || Nat.eqb n 32 || Nat.eqb n 160.

Fixpoint trimStart (s : string) : string :=
  match s with
  | EmptyString => EmptyString
  | String c r => if isWhiteSpace c then trimStart r else s
  end.

Fixpoint trimEnd (s : string) : string :=
  match s with
  | EmptyString => EmptyString
  | String c r =>
      match trimEnd r with
      | EmptyString => if isWhiteSpace c then EmptyString else String c EmptyString
      | r' => String c r'
      end
  end.

Definition trim (s : string) : string := trimEnd (trimStart s).

(** [toLowerCase] on one code unit: A-Z, and the Latin-1 capitals
    U+00C0..U+00DE except the multiplication sign U+00D7. *)
Definition lowerChar (c : ascii) : ascii :=
  let n := nat_of_ascii c in
  if (Nat.leb 65 n && Nat.leb n 90)
     || (Nat.leb 192 n && Nat.leb n 222 && negb (Nat.eqb n 215))
  then ascii_of_nat (n + 32) else c.

Fixpoint toLowerCase (s : string) : string :=
  match s with
  | EmptyString => EmptyString
  | String c r => String (lowerChar c) (toLowerCase r)
  end.

(** A string is truthy when it is not empty. *)
Definition truthy (s : string) : bool :=
  match s with EmptyString => false | _ => true end.

(** [o || ''] and the truthiness of a possibly undefined string. *)
Definition truthyOpt (o : option string) : bool :=
  match o with Some s => truthy s | None => false end.

Fixpoint startsWith (p s : string) : bool :=
  match p, s with
  | EmptyString, _ => true
  | String a p', String b s' => if Ascii.eqb a b then startsWith p' s' else false
  | String _ _, EmptyString => false
  end.

Fixpoint includes (needle s : string) : bool :=
  startsWith needle s ||
  match s with
  | EmptyString => false
  | String _ r => includes needle r
  end.

(** [s.indexOf(c)] for a one-character needle; [-1] when absent. *)
Fixpoint indexOf (c : ascii) (s : string) : Z :=
  match s with
  | EmptyString => (-1)%Z
  | String a r =>
      if Ascii.eqb a c then 0%Z
      else let i := indexOf c r in if (i <? 0)%Z then (-1)%Z else (i + 1)%Z
  end.

Fixpoint take (n : nat) (s : string) : string :=
  match n, s with
  | S n', String c r => String c (take n' r)
  | _, _ => EmptyString
  end.

Fixpoint drop (n : nat) (s : string) : string :=
  match n, s with
  | S n', String _ r => drop n' r
  | _, _ => s
  end.

(** [s.substring(a, b)] and [s.substring(a)] for [0 <= a <= b]; negative
    arguments count as [0] (as in JavaScript). *)
Definition substring (a b : Z) (s : string) : string :=
  take (Z.to_nat b - Z.to_nat a) (drop (Z.to_nat a) s).

Definition substringFrom (a : Z) (s : string) : string :=
  drop (Z.to_nat a) s.

(** [s.split('\n')]: never empty, [''.split('\n')] is [['']]. *)
Fixpoint splitLines (s : string) : list string :=
  match s with
  | EmptyString => [EmptyString]
  | String c r =>
      if Ascii.eqb c "010"%char then EmptyString :: splitLines r
      else match splitLines r with
           | l :: ls => String c l :: ls
           | [] => [String c EmptyString]
           end
  end.

(** [lines.join('\n')]. *)
Fixpoint joinLines (ls : list string) : string :=
  match ls with
  | [] => EmptyString
  | [l] => l
  | l :: ls' => l ++ String "010"%char (joinLines ls')
  end.

Fixpoint contains (c : ascii) (s : string) : bool :=
  match s with
  | EmptyString => false
  | String a r => Ascii.eqb a c || contains c r
  end.

Definition headIs (P : ascii -> bool) (s : string) : bool :=
  match s with String c _ => P c | EmptyString => false end.

Fixpoint lastIs (P : ascii -> bool) (s : string) : bool :=
  match s with
  | EmptyString => false
  | String c EmptyString => P c
  | String _ r => lastIs P r
  end.

(** The line feed, and the test for a blank string. *)
Definition LF : ascii := "010"%char.

Fixpoint allWhiteSpace (s : string) : bool :=
  match s with
  | EmptyString => true
  | String c r => isWhiteSpace c && allWhiteSpace r
  end.

End JsString.

Import JsString.

(** ** Errors and outcomes *)

(** A thrown value: [name] is ["Error"] or ["SyntaxError"], [code] is the
    [code] field Node puts on file-system errors. *)
Record Error := mkError {
  name : string;
  message : string;
  code : option string
}.

Definition newError (msg : string) : Error := mkError "Error" msg None.

(** What a promise, or an [async] method, comes to. *)
Inductive Outcome (A : Type) : Type :=
| Returns (a : A)
| Throws (e : Error)
| Hangs.
Arguments Returns {A} a.
Arguments Throws {A} e.
Arguments Hangs {A}.

Definition nl : string := String "010"%char EmptyString.

(** ** Objects *)

(** [o[k] = v] on a plain object with a string [v]: the inherited
    [__proto__] setter ignores a value that is neither an object nor
    null, so no own property is created for that key. *)
Definition objAssign (k v : string) (o : gmap string string) : gmap string string :=
  if decide (k = "__proto__") then o else <[k := v]> o.

(** [Object.entries] lists every own property once: integer-like keys in
    ascending order, then the others in insertion order.  The model keeps
    only what the loader relies on, that it is an enumeration of the
    properties, and takes the order to be fixed by the properties; no
    statement below depends on the order. *)
Class ObjectEntries := {
  entries : gmap string string -> list (string * string);
  entries_perm : forall o, entries o ≡ₚ map_to_list o
}.

(** An enumeration to run the model with: the one of the map itself. *)
#[global] Instance mapEntries : ObjectEntries :=
  {| entries := map_to_list; entries_perm := fun o => reflexivity (map_to_list o) |}.

(** ** The process, the disk and the loader *)

(** [configData.workspaceId] after [JSON.parse]; [JsUndefined] also
    stands for a [configData] that is [null] or has no such field. *)
Inductive JsValue :=
| JsUndefined
| JsString (s : string)
| JsOther (isTruthy : bool).

(** [.infisical.json] as [existsSync], [readFileSync] and [JSON.parse]
    see it. *)
Inductive ConfigFile :=
| ConfigAbsent
| ConfigUnreadable (e : Error)
| ConfigNotJson (msg : string)
| ConfigJson (workspaceId : JsValue).

(** [.env_backup] as [fs.access] and [fs.readFile] see it. *)
Inductive File :=
| NoFile
| Unreadable (e : Error)
| Content (data : string).

Inductive Level := LevelLog | LevelWarn | LevelError.

(** Console output.  Each constructor stands for the console call at one
    decision point of the source; progress lines that are printed
    unconditionally are left out. *)
Inductive LogLine :=
| SdkInitialized                 (* 'Secrets Loader initialized successfully from Infisical SDK' *)
| SdkInitFailed (e : Error)      (* 'Failed to initialize via SDK: ...' *)
| CliInitialized                 (* 'Secrets Loader initialized successfully from Infisical CLI' *)
| CliInitFailed (e : Error)      (* 'Failed to initialize via CLI: ...' *)
| UsingBackup                    (* 'Using backup secrets (Infisical unavailable)' *)
| NoBackupAvailable (e : Error)  (* 'No backup available: ...' *)
| CliRetrying                    (* 'Retrying without --projectId flag...' *)
| CliWarnings (text : string)    (* 'CLI warnings: ...' *)
| CliNoSecrets                   (* 'No secrets loaded from CLI. This could mean:' ... *)
| CliLoaded (n : nat)            (* 'Loaded n accessible secrets from CLI' *)
| CliPartial (n : nat) (e : Error) (* 'CLI encountered an error but loaded n secrets before failure' *)
| CliLoadFailed (e : Error)      (* 'CLI load failed: ...' *)
| SdkAuthFailed (e : Error)      (* 'Failed to create/authenticate SDK client: ...' *)
| SdkLoaded (n : nat)            (* 'Successfully loaded n accessible secrets from Infisical SDK' *)
| SdkFetchFailed (e : Error)     (* 'Failed to fetch secrets from Infisical:' ... *)
| NoSecretsToSave                (* 'No secrets to save to backup' *)
| BackupSaved (n : nat)          (* 'Backup saved successfully: ...' *)
| BackupSaveFailed (e : Error)   (* 'Failed to save backup: ...' *)
| BackupLoaded (n : nat)         (* 'Loaded n secrets from .env_backup' *)
| BackupLoadFailed (e : Error)   (* 'Failed to load backup:' ... *)
| PollingStarted                 (* 'Starting secret polling (every 60 seconds)...' *)
| PollCountChanged (previous current : nat) (* 'Secret count changed: p -> c' *)
| PollCompleted                  (* 'Polling completed successfully - .env_backup updated' *)
| PollFailed (e : Error).        (* 'Polling failed: ...', 'Will retry on next polling cycle' *)

Definition level (l : LogLine) : Level :=
  match l with
  | SdkInitFailed _ | CliInitFailed _ | NoBackupAvailable _ | CliLoadFailed _
  | SdkAuthFailed _ | SdkFetchFailed _ | BackupSaveFailed _ | BackupLoadFailed _
  | PollFailed _ => LevelError
  | CliWarnings _ | CliNoSecrets | CliPartial _ _ | NoSecretsToSave => LevelWarn
  | _ => LevelLog
  end.

(** The fields of a [SecretsLoader]; [secrets] is the heap address of
    the object [this.secrets] points to. *)
Record Loader := mkLoader {
  secrets : nat;
  hasClient : bool;
  usingSDK : bool;
  projectRoot : string;
  cliEnvironment : option string;
  cliSlug : option string
}.

(** The state the loader runs in: the process, the two files and the
    loader itself. *)
Record World := mkWorld {
  env : gmap string string;        (* process.env *)
  config : ConfigFile;             (* <projectRoot>/.infisical.json *)
  backup : File;                   (* <projectRoot>/.env_backup *)
  writes : nat;                    (* completed fs.writeFile calls *)
  console : list LogLine;          (* newest line first *)
  heap : list (gmap string string);(* the objects allocated so far *)
  timers : nat;                    (* intervals set and never cleared *)
  this : Loader
}.

(** One output event of a child process. *)
Inductive ChildEvent :=
| StdoutData (chunk : string)
| StderrData (chunk : string)
| Close (exitCode : option Z)
| ProcError (e : Error).

(** What [exec(command)] does: throw, hand back a process without
    streams, or emit events. *)
Record Child := mkChild {
  spawnThrows : option Error;
  streamsMissing : bool;
  events : list ChildEvent
}.

(** The answers of the outside world during one run of [initialize] or
    one polling tick. *)
Record Outside := mkOutside {
  login : string -> string -> option string -> Outcome unit;
  listSecrets : string -> string -> string -> Outcome (option (list (string * string)));
  exec : string -> Child;
  writeFile : string -> Outcome unit
}.

(** ** The monad of [async] methods *)

Definition M (A : Type) : Type := World -> Outcome A * World.

Definition ret {A} (a : A) : M A := fun w => (Returns a, w).

Definition bind {A B} (m : M A) (k : A -> M B) : M B :=
  fun w =>
    match m w with
    | (Returns a, w') => k a w'
    | (Throws e, w') => (Throws e, w')
    | (Hangs, w') => (Hangs, w')
    end.

Definition throw {A} (e : Error) : M A := fun w => (Throws e, w).

(** [await p] for a promise whose outcome is known. *)
Definition await {A} (p : Outcome A) : M A := fun w => (p, w).

(** [try { m } catch (e) { h e }]. *)
Definition tryCatch {A} (m : M A) (h : Error -> M A) : M A :=
  fun w =>
    match m w with
    | (Throws e, w') => h e w'
    | r => r
    end.

Definition gets {A} (f : World -> A) : M A := fun w => (Returns (f w), w).
Definition modify (f : World -> World) : M unit := fun w => (Returns tt, f w).

Declare Scope js_scope.
Delimit Scope js_scope with js.
Notation "'let*' x := m 'in' k" := (bind m (fun x => k))
  (at level 10, x name, m at level 100, k at level 200) : js_scope.
Notation "m ;> k" := (bind m (fun _ => k))
  (at level 100, k at level 200, right associativity) : js_scope.
Local Open Scope js_scope.

Fixpoint forEach {A} (l : list A) (body : A -> M unit) : M unit :=
  match l with
  | [] => ret tt
  | x :: l' => body x ;> forEach l' body
  end.

Definition when (b : bool) (m : M unit) : M unit := if b then m else ret tt.

(** *** Field updates *)

Definition setEnv (e : gmap string string) (w : World) : World :=
  mkWorld e (config w) (backup w) (writes w) (console w) (heap w) (timers w) (this w).
Definition setBackup (f : File) (w : World) : World :=
  mkWorld (env w) (config w) f (S (writes w)) (console w) (heap w) (timers w) (this w).
Definition addLog (l : LogLine) (w : World) : World :=
  mkWorld (env w) (config w) (backup w) (writes w) (l :: console w) (heap w) (timers w) (this w).
Definition setHeap (h : list (gmap string string)) (w : World) : World :=
  mkWorld (env w) (config w) (backup w) (writes w) (console w) h (timers w) (this w).
Definition addTimer (w : World) : World :=
  mkWorld (env w) (config w) (backup w) (writes w) (console w) (heap w) (S (timers w)) (this w).
Definition setThis (t : Loader) (w : World) : World :=
  mkWorld (env w) (config w) (backup w) (writes w) (console w) (heap w) (timers w) t.

Definition withSecrets (l : nat) (t : Loader) : Loader :=
  mkLoader l (hasClient t) (usingSDK t) (projectRoot t) (cliEnvironment t) (cliSlug t).
Definition withClient (t : Loader) : Loader :=
  mkLoader (secrets t) true (usingSDK t) (projectRoot t) (cliEnvironment t) (cliSlug t).
Definition withUsingSDK (b : bool) (t : Loader) : Loader :=
  mkLoader (secrets t) (hasClient t) b (projectRoot t) (cliEnvironment t) (cliSlug t).

Definition log (l : LogLine) : M unit := modify (addLog l).

(** *** Heap *)

(** The object at address [l]. *)
Definition deref (w : World) (l : nat) : gmap string string := heap w !!! l.

(** The object [this.secrets] points to. *)
Definition secretsOf (w : World) : gmap string string := deref w (secrets (this w)).

(** A fresh object with the given properties; returns its address. *)
Definition newObject (o : gmap string string) : M nat :=
  let* address := gets (fun w => length (heap w)) in
  modify (fun w => setHeap (heap w ++ [o]) w) ;>
  ret address.

(** [obj[k] = v] for the object at address [l]. *)
Definition objSet (l : nat) (k v : string) : M unit :=
  modify (fun w => setHeap (<[l := objAssign k v (deref w l)]> (heap w)) w).

(** [this.secrets = <the object at l>]. *)
Definition setSecrets (l : nat) : M unit :=
  modify (fun w => setThis (withSecrets l (this w)) w).

(** [this.secrets[k] = v]. *)
Definition secretsSet (k v : string) : M unit :=
  let* l := gets (fun w => secrets (this w)) in objSet l k v.

(** [Object.keys(this.secrets).length]. *)
Definition secretCount : M nat := gets (fun w => size (secretsOf w)).

(** ** [execWithStreaming] *)

Record ExecResult := mkExecResult {
  stdout : string;
  stderr : string
}.

(** The local variables of the promise executor. *)
Record ExecState := mkExecState {
  outBuf : string;
  errBuf : string;
  settled : option (Error + ExecResult);
  killCalled : bool
}.

Definition loginPhrase : string :=
  "No valid login session found, triggering login flow".

(** [settle(result, isError)]; [hasProcess] tells whether [process] is
    set, in which case it is killed. *)
Definition settle (hasProcess : bool) (result : Error + ExecResult) (st : ExecState) : ExecState :=
  match settled st with
  | Some _ => st
  | None => mkExecState (outBuf st) (errBuf st) (Some result) (killCalled st || hasProcess)
  end.

Definition exitError (c : Z) : Error :=
  newError ("Command failed with exit code " ++ pretty c).

(** The four event handlers. *)
Definition onEvent (st : ExecState) (ev : ChildEvent) : ExecState :=
  match ev with
  | StdoutData data =>
      let st' := mkExecState (outBuf st ++ data) (errBuf st) (settled st) (killCalled st) in
      if includes loginPhrase data then settle true (inl (newError loginPhrase)) st' else st'
  | StderrData data =>
      let st' := mkExecState (outBuf st) (errBuf st ++ data) (settled st) (killCalled st) in
      if includes loginPhrase data then settle true (inl (newError loginPhrase)) st' else st'
  | Close c =>
      match settled st with
      | Some _ => st
      | None =>
          match c with
          | Some n =>
              if negb (n =? 0)%Z then settle true (inl (exitError n)) st
              else settle true (inr (mkExecResult (outBuf st) (errBuf st))) st
          | None => settle true (inr (mkExecResult (outBuf st) (errBuf st))) st
          end
      end
  | ProcError e => settle true (inl e) st
  end.

Definition execInit : ExecState := mkExecState "" "" None false.

(** The executor run against a child: the state once the child has
    emitted all its events. *)
Definition execRun (c : Child) : ExecState :=
  match spawnThrows c with
  | Some e => settle false (inl e) execInit
  | None =>
      if streamsMissing c
      then settle true (inl (newError "Failed to create process streams")) execInit
      else foldl onEvent execInit (events c)
  end.

(** The promise [execWithStreaming] returns. *)
Definition execWithStreaming (c : Child) : Outcome ExecResult :=
  match settled (execRun c) with
  | Some (inl e) => Throws e
  | Some (inr r) => Returns r
  | None => Hangs
  end.

(** ** [SecretsLoader] *)

(** [new SecretsLoader(projectRoot, environment, slug)]. *)
Definition construct (root : string) (environment slug : option string) (w : World) : World :=
  setThis (mkLoader (length (heap w)) false false root environment slug)
          (setHeap (heap w ++ [∅]) w).

Definition orEmpty (o : option string) : string := default "" o.

Definition getInfisicalEnvironment (w : World) : string :=
  let cliEnv := cliEnvironment (this w) in
  if truthyOpt cliEnv && truthy (trim (orEmpty cliEnv)) then trim (orEmpty cliEnv)
  else
    let explicitEnv := env w !! "INFISICAL_ENVIRONMENT" in
    if truthyOpt explicitEnv && truthy (trim (orEmpty explicitEnv)) then trim (orEmpty explicitEnv)
    else
      let nodeEnv := toLowerCase (if truthyOpt (env w !! "NODE_ENV")
                                  then orEmpty (env w !! "NODE_ENV") else "") in
      if String.eqb nodeEnv "development" then "development"
      else if String.eqb nodeEnv "dev" then "development"
      else if String.eqb nodeEnv "staging" then "staging"
      else if String.eqb nodeEnv "production" then "production"
      else if String.eqb nodeEnv "prod" then "production"
      else "development".

Definition dq : string := String (ascii_of_nat 34) EmptyString.

(** The sample file shown in the messages of [getProjectId]. *)
Definition configShape : string :=
  "{" ++ nl ++ "  " ++ dq ++ "workspaceId" ++ dq ++ ": "
      ++ dq ++ "your-workspace-id-here" ++ dq ++ nl ++ "}".

Definition isTruthy (v : JsValue) : bool :=
  match v with
  | JsUndefined => false
  | JsString s => truthy s
  | JsOther b => b
  end.

(** The body of the [try] block of [getProjectId]. *)
Definition readProjectId (c : ConfigFile) : Error + string :=
  match c with
  | ConfigAbsent => inl (newError "ENOENT: no such file or directory")
  | ConfigUnreadable e => inl e
  | ConfigNotJson msg => inl (mkError "SyntaxError" msg None)
  | ConfigJson v =>
      if negb (isTruthy v) then
        inl (newError ("workspaceId is required in .infisical.json" ++ nl ++
                       "Please ensure your .infisical.json contains:" ++ nl ++ configShape))
      else
        match v with
        | JsString s =>
            if String.eqb (trim s) "" then
              inl (newError "workspaceId in .infisical.json must be a non-empty string")
            else inr (trim s)
        | _ => inl (newError "workspaceId in .infisical.json must be a non-empty string")
        end
  end.

Definition getProjectId : M string :=
  fun w =>
    match config w with
    | ConfigAbsent =>
        (Throws (newError (".infisical.json not found in " ++ projectRoot (this w) ++ nl ++
                           "Please create .infisical.json with your Infisical workspace ID:" ++ nl ++
                           configShape)), w)
    | c =>
        match readProjectId c with
        | inr id => (Returns id, w)
        | inl error =>
            if String.eqb (name error) "SyntaxError" then
              (Throws (newError ("Invalid JSON in .infisical.json: " ++ message error ++ nl ++
                                 "Please ensure .infisical.json contains valid JSON:" ++ nl ++
                                 configShape)), w)
            else if truthy (message error) && includes "workspaceId" (message error) then
              (Throws error, w)
            else
              (Throws (newError ("Failed to read .infisical.json: " ++ message error ++ nl ++
                                 "Please ensure the file exists and is readable.")), w)
        end
    end.

(** The [replace] of [initSDK]: a single or double quote at the start
    of the string and one at its end are removed. *)
Definition isQuote (c : ascii) : bool :=
  Nat.eqb (nat_of_ascii c) 34 || Nat.eqb (nat_of_ascii c) 39.

Definition dropLeadingQuote (s : string) : string :=
  match s with
  | String c r => if isQuote c then r else s
  | EmptyString => s
  end.

Fixpoint dropTrailingQuote (s : string) : string :=
  match s with
  | EmptyString => EmptyString
  | String c EmptyString => if isQuote c then EmptyString else s
  | String c r => String c (dropTrailingQuote r)
  end.

Definition unquote (s : string) : string := dropTrailingQuote (dropLeadingQuote s).

Definition initSDK (o : Outside) : M unit :=
  let* clientId := gets (fun w => env w !! "INFISICAL_CLIENT_ID") in
  let* clientSecret := gets (fun w => env w !! "INFISICAL_CLIENT_SECRET") in
  let* siteUrl := gets (fun w => env w !! "INFISICAL_BASE_URL") in
  if negb (truthyOpt clientId) || negb (truthyOpt clientSecret) then
    throw (newError "INFISICAL_CLIENT_ID and INFISICAL_CLIENT_SECRET are required")
  else
    let clientId := unquote (trim (orEmpty clientId)) in
    let clientSecret := unquote (trim (orEmpty clientSecret)) in
    let siteUrl := if truthyOpt siteUrl then Some (unquote (trim (orEmpty siteUrl))) else siteUrl in
    if negb (truthy clientId) || negb (truthy clientSecret) then
      throw (newError "INFISICAL_CLIENT_ID and INFISICAL_CLIENT_SECRET cannot be empty after trimming")
    else
      let* projectId := getProjectId in
      tryCatch
        (modify (fun w => setThis (withClient (this w)) w) ;>
         await (login o clientId clientSecret
                      (if truthyOpt siteUrl then siteUrl else None)))
        (fun error => log (SdkAuthFailed error) ;> throw error).

(** [this.client!.secrets()] when no client was created. *)
Definition noClientError : Error :=
  mkError "TypeError" "Cannot read properties of undefined (reading 'secrets')" None.

(** [this.secrets = secretsArray.reduce(...)] and the line that reports
    the count. *)
Definition adoptSecrets (secretsArray : list (string * string)) : M unit :=
  let* acc := newObject ∅ in
  forEach secretsArray (fun item => objSet acc (fst item) (snd item)) ;>
  setSecrets acc ;>
  let* n := secretCount in
  log (SdkLoaded n).

Definition loadSecrets (o : Outside) : M unit :=
  tryCatch
    (let* projectId := getProjectId in
     let* environment := gets getInfisicalEnvironment in
     let* client := gets (fun w => hasClient (this w)) in
     if negb client then throw noClientError
     else
       let* response := await (listSecrets o projectId environment "/") in
       let secretsArray := default [] response in
       adoptSecrets secretsArray)
    (fun error => log (SdkFetchFailed error) ;> throw error).

(** The loop shared by [loadFromCLI] and [loadBackup]:
    [this.secrets = {}] and one assignment per line that has an [=]
    past its first character. *)
Definition parseLine (line : string) : M unit :=
  let equalIndex := indexOf "="%char line in
  if (0 <? equalIndex)%Z then
    secretsSet (substring 0 equalIndex line) (substringFrom (equalIndex + 1) line)
  else ret tt.

Definition parseLines (lines : list string) : M unit :=
  (let* fresh := newObject ∅ in setSecrets fresh) ;>
  forEach lines parseLine.

(** The filter of [loadBackup]: the line is not blank and does not
    start with [#]. *)
Definition isEntryLine (line : string) : bool :=
  truthy (trim line) && negb (startsWith "#" line).

Definition loadBackup : M unit :=
  tryCatch
    (let* file := gets backup in
     match file with
     | NoFile => throw (mkError "Error" "ENOENT: no such file or directory, access '.env_backup'"
                                (Some "ENOENT"))
     | Unreadable e => throw e
     | Content envData =>
         let lines := List.filter isEntryLine (splitLines (trim envData)) in
         parseLines lines ;>
         let* n := secretCount in
         log (BackupLoaded n)
     end)
    (fun error =>
       if bool_decide (code error = Some "ENOENT") then
         throw (newError "No backup file found (.env_backup)")
       else
         log (BackupLoadFailed error) ;>
         throw (newError "No backup available and Infisical is unavailable")).

(** The three invocations of [loadFromCLI], innermost [try] last. *)
Definition cliCommand (environment workspaceId : string) : string :=
  "infisical secrets --plain --silent --env=" ++ environment ++ " --projectId=" ++ workspaceId.
Definition cliRetryCommand (environment : string) : string :=
  "infisical secrets --plain --silent --env=" ++ environment.
Definition cliDebugCommand (environment : string) : string :=
  "infisical secrets --plain --env=" ++ environment.

Definition cliInvoke (o : Outside) (environment workspaceId : string) : M ExecResult :=
  tryCatch
    (await (execWithStreaming (exec o (cliCommand environment workspaceId))))
    (fun error =>
       log CliRetrying ;>
       tryCatch
         (await (execWithStreaming (exec o (cliRetryCommand environment))))
         (fun retryError =>
            tryCatch
              (await (execWithStreaming (exec o (cliDebugCommand environment))))
              (fun debugError => throw retryError))).

Definition loadFromCLI (o : Outside) : M unit :=
  let* environment := gets getInfisicalEnvironment in
  let* workspaceId := getProjectId in
  tryCatch
    (let* result := cliInvoke o environment workspaceId in
     let lines := List.filter (fun line => truthy (trim line))
                         (splitLines (trim (stdout result))) in
     parseLines lines ;>
     let* n := secretCount in
     when (truthy (stderr result) && truthy (trim (stderr result)))
          (log (CliWarnings (trim (stderr result)))) ;>
     if Nat.eqb n 0 then log CliNoSecrets else log (CliLoaded n))
    (fun error =>
       let* n := secretCount in
       if Nat.ltb 0 n then log (CliPartial n error)
       else log (CliLoadFailed error) ;> throw error).

(** The names every object inherits from [Object.prototype].  Read on
    [process.env] when no variable of that name is set, they give what
    is inherited, which is truthy. *)
Definition inheritedNames : list string :=
  ["constructor"; "hasOwnProperty"; "isPrototypeOf"; "propertyIsEnumerable";
   "toLocaleString"; "toString"; "valueOf"; "__proto__";
   "__defineGetter__"; "__defineSetter__"; "__lookupGetter__"; "__lookupSetter__"].

(** [!process.env[key]] for a key of [this.secrets]. *)
Definition envFalsy (e : gmap string string) (key : string) : bool :=
  match e !! key with
  | Some value => negb (truthy value)
  | None => negb (existsb (String.eqb key) inheritedNames)
  end.

Section Methods.
Context {OE : ObjectEntries}.

Definition backupLine (kv : string * string) : string := fst kv ++ "=" ++ snd kv.

Definition saveBackup (o : Outside) : M unit :=
  tryCatch
    (let* n := secretCount in
     if Nat.eqb n 0 then log NoSecretsToSave
     else
       let* envContent := gets (fun w => joinLines (map backupLine (entries (secretsOf w)))) in
       await (writeFile o envContent) ;>
       modify (setBackup (Content envContent)) ;>
       log (BackupSaved n))
    (fun error => log (BackupSaveFailed error) ;> throw error).

(** One iteration of the loop of [populateEnv]. *)
Definition publish (kv : string * string) : M unit :=
  let* unset := gets (fun w => envFalsy (env w) (fst kv)) in
  if unset then modify (fun w => setEnv (<[fst kv := snd kv]> (env w)) w)
  else ret tt.

Definition populateEnv : M unit :=
  let* pairs := gets (fun w => entries (secretsOf w)) in
  forEach pairs publish.

(** The callback of [setInterval]. *)
Definition pollTick (o : Outside) : M unit :=
  tryCatch
    (let* previousCount := secretCount in
     loadSecrets o ;>
     let* currentCount := secretCount in
     when (negb (Nat.eqb currentCount previousCount))
          (log (PollCountChanged previousCount currentCount)) ;>
     saveBackup o ;>
     log PollCompleted ;>
     populateEnv)
    (fun error => log (PollFailed error)).

Definition startPolling : M unit :=
  log PollingStarted ;> modify addTimer.

(** The bodies of the three [try] blocks of [initialize]. *)
Definition sdkTier (o : Outside) : M unit :=
  initSDK o ;>
  loadSecrets o ;>
  saveBackup o ;>
  modify (fun w => setThis (withUsingSDK true (this w)) w) ;>
  log SdkInitialized ;>
  startPolling.

Definition cliTier (o : Outside) : M unit :=
  loadFromCLI o ;> log CliInitialized.

Definition backupTier : M unit :=
  loadBackup ;> log UsingBackup.

Definition initialize (o : Outside) : M unit :=
  tryCatch (sdkTier o)
    (fun sdkError =>
       log (SdkInitFailed sdkError) ;>
       tryCatch (cliTier o)
         (fun cliError =>
            log (CliInitFailed cliError) ;>
            tryCatch backupTier
              (fun backupError =>
                 log (NoBackupAvailable backupError) ;>
                 throw sdkError))) ;>
  populateEnv.

(** [getSecrets()]: a new object with the own properties of
    [this.secrets]; the result is its address. *)
Definition getSecrets : M nat :=
  let* copy := gets secretsOf in
  newObject copy.

(** The timer: as long as an interval is set, each period runs the
    callback once with that period's answers of the outside world.  A
    callback whose promise never settles leaves the state it reached. *)
Definition runTick (o : Outside) (w : World) : World :=
  if Nat.ltb 0 (timers w) then snd (pollTick o w) else w.

Definition runTicks (os : list Outside) (w : World) : World :=
  foldl (fun w o => runTick o w) w os.

(** ** The [run] command of [cli.ts] *)

(** [dotenv.config()]: variables of the [.env] file are added where the
    process has none of that name. *)
Definition dotenvConfig (dotenvFile : gmap string string) : M unit :=
  modify (fun w => setEnv (env w ∪ dotenvFile) w).

(** The action of [run] up to and including [loader.initialize()];
    [optEnv] and [optPath] are [options.env] and [options.path]. *)
Definition runAction (optEnv optPath : option string) (cwd : string)
    (dotenvFile : gmap string string) (o : Outside) : M unit :=
  dotenvConfig dotenvFile ;>
  let environment := optEnv in
  let path := optPath in
  when (truthyOpt environment)
       (modify (fun w => setEnv (<["NODE_ENV" := orEmpty environment]> (env w)) w)) ;>
  modify (construct cwd path None) ;>
  initialize o.

(** What [spawn(cmd, cmdArgs, {stdio, shell, env})] comes to: the call
    itself throws, the child emits 'error', the child emits 'exit' with
    its code ([None] when a signal ended it), or the child is still
    running. *)
Inductive Spawned :=
| SpawnThrows (e : Error)
| SpawnError (e : Error)
| ChildExit (exitCode : option Z)
| ChildRuns.

(** What the action prints with [console.error]. *)
Inductive RunMessage :=
| NoCommandAfterDashes            (* 'No command provided after --' *)
| NoCommandProvided               (* 'No command provided' *)
| FailedToExecute (e : Error)     (* 'Failed to execute command: ' *)
| FailedToLoadSecrets (e : Error). (* 'Failed to load secrets: ' *)

(** How the action ends: [exited] is the argument of [process.exit]
    ([None] while the process goes on), [said] what it printed as an
    error, [launched] the command, arguments and environment given to
    [spawn]. *)
Record RunResult := mkRunResult {
  exited : option Z;
  said : option RunMessage;
  launched : option (string * list string * gmap string string)
}.

(** [argv.indexOf(x)]; [-1] when absent. *)
Fixpoint arrayIndexOf (x : string) (argv : list string) : Z :=
  match argv with
  | [] => (-1)%Z
  | a :: rest =>
      if String.eqb a x then 0%Z
      else let i := arrayIndexOf x rest in if (i <? 0)%Z then (-1)%Z else (i + 1)%Z
  end.

(** The action of [run] after [loader.initialize()] has returned;
    [argv] is [process.argv] and [environment] is [process.env]. *)
Definition runCommand (argv : list string)
    (spawn : string -> list string -> gmap string string -> Spawned)
    (environment : gmap string string) : RunResult :=
  let dashDashIndex := arrayIndexOf "--" argv in
  if (dashDashIndex =? -1)%Z || (dashDashIndex =? Z.of_nat (length argv) - 1)%Z then
    mkRunResult (Some 1%Z) (Some NoCommandAfterDashes) None
  else
    let command := List.skipn (Z.to_nat (dashDashIndex + 1)) argv in
    match command with
    | [] => mkRunResult (Some 1%Z) (Some NoCommandProvided) None
    | cmd :: cmdArgs =>
        let started := Some (cmd, cmdArgs, environment) in
        match spawn cmd cmdArgs environment with
        | SpawnThrows e => mkRunResult (Some 1%Z) (Some (FailedToLoadSecrets e)) started
        | SpawnError e => mkRunResult (Some 1%Z) (Some (FailedToExecute e)) started
        | ChildExit (Some exitCode) =>
            mkRunResult (Some (if (exitCode =? 0)%Z then 0%Z else exitCode)) None started
        | ChildExit None => mkRunResult (Some 0%Z) None started
        | ChildRuns => mkRunResult None None started
        end
    end.


End Methods.

(** ** The access mode *)

(** The loader has no field for the tier that served it besides
    [usingSDK]; the tier is what the last of the lines that announce the
    end of [initialize] says. *)
Inductive AccessMode := Uninitialized | SDKActive | CLIActive | BackupActive | Failed.

Fixpoint modeOfConsole (c : list LogLine) : AccessMode :=
  match c with
  | [] => Uninitialized
  | SdkInitialized :: _ => SDKActive
  | CliInitialized :: _ => CLIActive
  | UsingBackup :: _ => BackupActive
  | NoBackupAvailable _ :: _ => Failed
  | _ :: c' => modeOfConsole c'
  end.

Definition accessMode (w : World) : AccessMode := modeOfConsole (console w).

(** * Notions used in the statements *)

(** [preserves R m]: running [m] relates the state before to the state
    after, whatever the outcome. *)
Definition preserves {A} (R : World -> World -> Prop) (m : M A) : Prop :=
  forall w, R w (snd (m w)).

(** [succeeds m]: [m] returns from every state (it neither throws nor
    hangs). *)
Definition succeeds {A} (m : M A) : Prop :=
  forall w, exists a w', m w = (Returns a, w').

(** The backup file is as it was and nothing was written. *)
Definition sameDisk (w w' : World) : Prop :=
  backup w' = backup w /\ writes w' = writes w.


(** [this.secrets] points into the heap. *)
Definition wf (w : World) : Prop := secrets (this w) < length (heap w).

Definition keepsWf (w w' : World) : Prop :=
  length (heap w) <= length (heap w') /\ (wf w -> wf w').

(** [populateEnv] one entry at a time, on the environment alone. *)
Definition publishInto (e : gmap string string) (kv : string * string) : gmap string string :=
  if envFalsy e (fst kv) then <[fst kv := snd kv]> e else e.

(** The parse loop, as a function on the object it fills. *)
Definition parseInto (o : gmap string string) (line : string) : gmap string string :=
  let equalIndex := indexOf "="%char line in
  if (0 <? equalIndex)%Z
  then objAssign (substring 0 equalIndex line) (substringFrom (equalIndex + 1) line) o
  else o.

Definition assignItem (o : gmap string string) (item : string * string) : gmap string string :=
  objAssign (fst item) (snd item) o.

(** An override is given when it is there and not blank; what it gives
    is its trimmed text. *)
Definition given (o : option string) (v : string) : Prop :=
  exists s, o = Some s /\ trim s = v /\ v <> "".

Definition notGiven (o : option string) : Prop :=
  forall s, o = Some s -> trim s = "".

(** The resolver as the specification words it: an override that is
    given wins, and the stage table is case-insensitive and trimmed. *)
Definition specStageTable (stageVar : option string) : string :=
  let stage := toLowerCase (trim (orEmpty stageVar)) in
  if String.eqb stage "development" || String.eqb stage "dev" then "development"
  else if String.eqb stage "staging" then "staging"
  else if String.eqb stage "production" || String.eqb stage "prod" then "production"
  else "development".

Definition specOverride (o : option string) : option string :=
  match o with
  | Some s => if truthy (trim s) then Some (trim s) else None
  | None => None
  end.

Definition specResolve (cliFlag explicitVar stageVar : option string) : string :=
  match specOverride cliFlag, specOverride explicitVar with
  | Some v, _ => v
  | None, Some v => v
  | None, None => specStageTable stageVar
  end.

(** Keys and values the line format can carry. *)
Definition storableKey (k : string) : bool :=
  truthy k && negb (contains "="%char k) && negb (contains LF k)
  && negb (headIs isWhiteSpace k) && negb (startsWith "#" k)
  && negb (String.eqb k "__proto__").

Definition storableValue (v : string) : bool :=
  negb (contains LF v) && negb (lastIs isWhiteSpace v).

Definition storable (o : gmap string string) : Prop :=
  forall k v, o !! k = Some v -> storableKey k = true /\ storableValue v = true.

(** What the holder of an object can do to it: give it any set of
    properties. *)
Definition callerWrites (l : nat) (o : gmap string string) (w : World) : World :=
  setHeap (<[l := o]> (heap w)) w.

(** ** Sample runs *)

Module Sample.

(** A process started in [/app] with a valid [.infisical.json], no
    backup file and the given environment; the loader is constructed
    without overrides. *)
Definition process (environment : gmap string string) : World :=
  mkWorld environment (ConfigJson (JsString "ws-1")) NoFile 0 [] [] 0
          (mkLoader 0 false false "" None None).

Definition world (environment : gmap string string) : World :=
  construct "/app" None None (process environment).

(** The same with a backup file on disk. *)
Definition withBackup (data : string) (w : World) : World :=
  mkWorld (env w) (config w) (Content data) (writes w) (console w) (heap w)
          (timers w) (this w).

(** A child that prints [out] in one chunk and exits with [status]. *)
Definition child (out : string) (status : Z) : Child :=
  mkChild None false [StdoutData out; Close (Some status)].

(** No SDK access; every invocation of the CLI behaves like [c]; the
    disk accepts writes. *)
Definition cliOnly (c : Child) : Outside :=
  mkOutside (fun _ _ _ => Throws (newError "login refused"))
            (fun _ _ _ => Throws (newError "service unreachable"))
            (fun _ => c)
            (fun _ => Returns tt).

(** The SDK answers with [items]; the CLI is not installed. *)
Definition sdkOnly (items : list (string * string)) : Outside :=
  mkOutside (fun _ _ _ => Returns tt)
            (fun _ _ _ => Returns (Some items))
            (fun _ => mkChild (Some (newError "spawn infisical ENOENT")) false [])
            (fun _ => Returns tt).

(** An SDK that answers with the request it was sent. *)
Definition echo : Outside :=
  mkOutside (fun _ _ _ => Returns tt)
            (fun projectId environment secretPath =>
               Returns (Some [("PROJECT", projectId); ("ENVIRONMENT", environment);
                              ("SECRET_PATH", secretPath)]))
            (fun _ => mkChild (Some (newError "spawn infisical ENOENT")) false [])
            (fun _ => Returns tt).

Definition credentials : gmap string string :=
  {[ "INFISICAL_CLIENT_ID" := "id"; "INFISICAL_CLIENT_SECRET" := "secret" ]}.

End Sample.

Module LoginSample.

(** The login phrase on the first invocation; the invocation without
    --projectId prints one secret and exits with status 0. *)
Definition outside : Outside :=
  mkOutside (fun _ _ _ => Throws (newError "login refused"))
            (fun _ _ _ => Throws (newError "service unreachable"))
            (fun command =>
               if includes "--projectId" command
               then mkChild None false [StderrData loginPhrase; Close (Some 1%Z)]
               else Sample.child "FOO=bar" 0)
            (fun _ => Returns tt).

End LoginSample.

Module BackupSample.

(** A loader that took [items] from the SDK. *)
Definition holding (items : list (string * string)) : World :=
  snd (initialize (Sample.sdkOnly items) (Sample.world Sample.credentials)).

(** [saveBackup] and then [loadBackup], on a disk that accepts writes. *)
Definition reload (w : World) : World :=
  snd (loadBackup (snd (saveBackup (Sample.sdkOnly []) w))).

(** A loader that took two secrets from the SDK; one value holds [=]. *)
Definition loaded : World :=
  holding [("API_KEY", "abc"); ("DSN", "host=db;port=5432")].

(** A loader whose only secret has a value of two lines. *)
Definition twoLines : World :=
  holding [("CERT", "a" ++ nl ++ "b")].

End BackupSample.

Definition missingCredentials : Error :=
  newError "INFISICAL_CLIENT_ID and INFISICAL_CLIENT_SECRET are required".

Definition emptyCredentials : Error :=
  newError "INFISICAL_CLIENT_ID and INFISICAL_CLIENT_SECRET cannot be empty after trimming".

(** ** Notions for the further properties *)

(** A chunk of output that does not hold the login phrase. *)
Definition quietChunk (ev : ChildEvent) : bool :=
  match ev with
  | StdoutData data => negb (includes loginPhrase data)
  | StderrData data => negb (includes loginPhrase data)
  | Close _ => false
  | ProcError _ => false
  end.

(** What a run of events wrote to standard output, and to standard
    error. *)
Fixpoint stdoutOf (evs : list ChildEvent) : string :=
  match evs with
  | [] => ""
  | StdoutData data :: rest => data ++ stdoutOf rest
  | _ :: rest => stdoutOf rest
  end.

Fixpoint stderrOf (evs : list ChildEvent) : string :=
  match evs with
  | [] => ""
  | StderrData data :: rest => data ++ stderrOf rest
  | _ :: rest => stderrOf rest
  end.

(** No interval was set or cleared and [usingSDK] is as it was. *)
Definition sameMode (w w' : World) : Prop :=
  timers w' = timers w /\ usingSDK (this w') = usingSDK (this w).

(** A key the parse loop can bind: not empty, without [=], and not
    [__proto__]. *)
Definition bindableKey (k : string) : bool :=
  truthy k && negb (contains "="%char k) && negb (String.eqb k "__proto__").

(** The text [saveBackup] writes for an object. *)
Definition backupText `{ObjectEntries} (o : gmap string string) : string :=
  joinLines (map backupLine (entries o)).

(** A client, once created, is still there. *)
Definition keepsClient (w w' : World) : Prop :=
  hasClient (this w) = true -> hasClient (this w') = true.

(** The [catch] block of the SDK tier in [initialize]: the CLI tier,
    then the backup tier. *)
Definition fallbackTiers `{ObjectEntries} (o : Outside) (sdkError : Error) : M unit :=
  log (SdkInitFailed sdkError) ;>
  tryCatch (cliTier o)
    (fun cliError =>
       log (CliInitFailed cliError) ;>
       tryCatch backupTier
         (fun backupError =>
            log (NoBackupAvailable backupError) ;>
            throw sdkError)).

(** How the [run] action ends once [spawn] has been called: the
    argument of [process.exit], and what is printed as an error. *)
Definition exitStatus (s : Spawned) : option Z :=
  match s with
  | SpawnThrows _ => Some 1%Z
  | SpawnError _ => Some 1%Z
  | ChildExit (Some exitCode) => Some exitCode
  | ChildExit None => Some 0%Z
  | ChildRuns => None
  end.

Definition complaint (s : Spawned) : option RunMessage :=
  match s with
  | SpawnThrows e => Some (FailedToLoadSecrets e)
  | SpawnError e => Some (FailedToExecute e)
  | _ => None
  end.


(** A credential as [initSDK] hands it on: trimmed, then without one
    quote at either end. *)
Definition normalised (o : option string) : string := unquote (trim (orEmpty o)).

(** The [siteUrl] of the client configuration: the base URL when it is
    set and something is left of it. *)
Definition siteUrlOf (o : option string) : option string :=
  if truthyOpt o && truthy (normalised o) then Some (normalised o) else None.

(** * Properties *)

(** ** Reasoning about computations *)

Section Preservation.
Variable R : World -> World -> Prop.
Hypothesis R_refl : forall w, R w w.
Hypothesis R_trans : forall w1 w2 w3, R w1 w2 -> R w2 w3 -> R w1 w3.

Lemma preserves_ret {A} (a : A) : preserves R (ret a).
Proof. intros w. apply R_refl. Qed.

Lemma preserves_throw {A} e : preserves R (@throw A e).
Proof. intros w. apply R_refl. Qed.

Lemma preserves_await {A} (p : Outcome A) : preserves R (await p).
Proof. intros w. apply R_refl. Qed.

Lemma preserves_gets {A} (f : World -> A) : preserves R (gets f).
Proof. intros w. apply R_refl. Qed.

Lemma preserves_modify f : (forall w, R w (f w)) -> preserves R (modify f).
Proof. intros Hf w. apply Hf. Qed.

Lemma preserves_bind {A B} (m : M A) (k : A -> M B) :
  preserves R m -> (forall a, preserves R (k a)) -> preserves R (bind m k).
Proof.
  intros Hm Hk w. unfold bind. specialize (Hm w).
  destruct (m w) as [[a | e |] w']; simpl in *; auto.
  eapply R_trans; [exact Hm | apply Hk].
Qed.

Lemma preserves_tryCatch {A} (m : M A) (h : Error -> M A) :
  preserves R m -> (forall e, preserves R (h e)) -> preserves R (tryCatch m h).
Proof.
  intros Hm Hh w. unfold tryCatch. specialize (Hm w).
  destruct (m w) as [[a | e |] w']; simpl in *; auto.
  eapply R_trans; [exact Hm | apply Hh].
Qed.

Lemma preserves_forEach {A} (l : list A) (body : A -> M unit) :
  (forall x, preserves R (body x)) -> preserves R (forEach l body).
Proof.
  intros Hb. induction l as [| x l IH]; simpl.
  - apply preserves_ret.
  - apply preserves_bind; auto.
Qed.

Lemma preserves_when b (m : M unit) : preserves R m -> preserves R (when b m).
Proof. intros Hm. destruct b; simpl; [exact Hm | apply preserves_ret]. Qed.

Lemma preserves_getProjectId : preserves R getProjectId.
Proof.
  intros w. unfold getProjectId.
  destruct (config w); simpl; try apply R_refl;
    repeat match goal with
           | |- context [match ?x with _ => _ end] => destruct x; simpl
           end; apply R_refl.
Qed.

End Preservation.

(** One step of a preservation proof: peel the outermost construct.
    [Hr] and [Ht] are reflexivity and transitivity of the relation. *)
Ltac head_of t := match t with ?f _ => head_of f | _ => t end.

Ltac preserve_step Hr Ht :=
  cbv zeta;
  match goal with
  | H : context [preserves _ _] |- preserves _ _ => solve [apply H]
  | |- preserves _ (bind _ _) => apply (preserves_bind _ Ht); [| intros ?]
  | |- preserves _ (tryCatch _ _) => apply (preserves_tryCatch _ Ht); [| intros ?]
  | |- preserves _ (ret _) => apply (preserves_ret _ Hr)
  | |- preserves _ (throw _) => apply (preserves_throw _ Hr)
  | |- preserves _ (await _) => apply (preserves_await _ Hr)
  | |- preserves _ (gets _) => apply (preserves_gets _ Hr)
  | |- preserves _ (when _ _) => apply (preserves_when _ Hr)
  | |- preserves _ (forEach _ _) => apply (preserves_forEach _ Hr Ht); intros ?
  | |- preserves _ getProjectId => apply (preserves_getProjectId _ Hr)
  | |- preserves _ (if ?b then _ else _) => destruct b
  | |- preserves _ (match ?x with _ => _ end) => destruct x
  | |- preserves _ (modify _) => fail 1
  | |- preserves _ ?m => let h := head_of m in unfold h
  end.

(** The whole proof: what is left are the field updates, which [tac]
    settles for the relation at hand. *)
Ltac preserve Hr Ht tac :=
  repeat preserve_step Hr Ht;
  try (apply preserves_modify; intros ?; tac).

Lemma succeeds_ret {A} (a : A) : succeeds (ret a).
Proof. intros w. by exists a, w. Qed.

Lemma succeeds_gets {A} (f : World -> A) : succeeds (gets f).
Proof. intros w. by exists (f w), w. Qed.

Lemma succeeds_modify f : succeeds (modify f).
Proof. intros w. by exists tt, (f w). Qed.

Lemma succeeds_bind {A B} (m : M A) (k : A -> M B) :
  succeeds m -> (forall a, succeeds (k a)) -> succeeds (bind m k).
Proof.
  intros Hm Hk w. destruct (Hm w) as (a & w' & E).
  unfold bind. rewrite E. apply Hk.
Qed.

Lemma succeeds_forEach {A} (l : list A) (body : A -> M unit) :
  (forall x, succeeds (body x)) -> succeeds (forEach l body).
Proof.
  intros Hb. induction l as [| x l IH]; simpl.
  - apply succeeds_ret.
  - apply succeeds_bind; auto.
Qed.

Lemma succeeds_when b (m : M unit) : succeeds m -> succeeds (when b m).
Proof. intros Hm. destruct b; simpl; [exact Hm | apply succeeds_ret]. Qed.

Ltac succeed_step :=
  cbv zeta;
  match goal with
  | H : context [succeeds _] |- succeeds _ => solve [apply H]
  | |- succeeds (bind _ _) => apply succeeds_bind; [| intros ?]
  | |- succeeds (ret _) => apply succeeds_ret
  | |- succeeds (gets _) => apply succeeds_gets
  | |- succeeds (modify _) => apply succeeds_modify
  | |- succeeds (when _ _) => apply succeeds_when
  | |- succeeds (forEach _ _) => apply succeeds_forEach; intros ?
  | |- succeeds (if ?b then _ else _) => destruct b
  | |- succeeds ?m => let h := head_of m in unfold h
  end.

Ltac succeed := repeat succeed_step.

(** [m w = (r, snd (m w))], by running [m]. *)
Ltac by_running :=
  apply injective_projections; [vm_compute; reflexivity | reflexivity].

(** The same, with the state after the run left as it is written. *)
Ltac by_evaluating :=
  etransitivity;
  [apply surjective_pairing
  | apply (f_equal2 pair); [vm_compute; reflexivity | reflexivity]].

Lemma succeeds_parseLines lines : succeeds (parseLines lines).
Proof. succeed. Qed.

(** ** Relations the methods preserve *)

Lemma sameDisk_refl w : sameDisk w w.
Proof. by split. Qed.

Lemma sameDisk_trans w1 w2 w3 : sameDisk w1 w2 -> sameDisk w2 w3 -> sameDisk w1 w3.
Proof. intros [] []. split; congruence. Qed.



Lemma keepsWf_refl w : keepsWf w w.
Proof. by split. Qed.

Lemma keepsWf_trans w1 w2 w3 : keepsWf w1 w2 -> keepsWf w2 w3 -> keepsWf w1 w3.
Proof. unfold keepsWf. intros [] []. split; [lia | auto]. Qed.

Section Frames.
Context {OE : ObjectEntries}.

Ltac disk := preserve sameDisk_refl sameDisk_trans ltac:(by split).

Lemma loadSecrets_sameDisk o : preserves sameDisk (loadSecrets o).
Proof. disk. Qed.

Lemma initSDK_sameDisk o : preserves sameDisk (initSDK o).
Proof. disk. Qed.

Lemma loadFromCLI_sameDisk o : preserves sameDisk (loadFromCLI o).
Proof. disk. Qed.

Lemma loadBackup_sameDisk : preserves sameDisk loadBackup.
Proof. disk. Qed.

Lemma populateEnv_sameDisk : preserves sameDisk populateEnv.
Proof. disk. Qed.






End Frames.

(** ** C2: variables already set are not overwritten *)

Section NoOverwrite.
Context {OE : ObjectEntries}.


End NoOverwrite.



(** ** What the methods compute *)

Lemma getProjectId_pure w : snd (getProjectId w) = w.
Proof. by apply (preserves_getProjectId (fun w w' => w' = w)). Qed.

Lemma succeeds_adoptSecrets items : succeeds (adoptSecrets items).
Proof. succeed. Qed.

(** A fetch that fails has only written to the console. *)
Lemma loadSecrets_throws o w e w1 :
  loadSecrets o w = (Throws e, w1) -> w1 = addLog (SdkFetchFailed e) w.
Proof.
  unfold loadSecrets, tryCatch, bind at 1.
  pose proof (getProjectId_pure w) as Hp.
  destruct (getProjectId w) as [[id | e0 |] w0]; simpl in Hp; subst w0.
  - unfold bind, gets, await, throw, log, modify. simpl.
    destruct (hasClient (this w)); simpl.
    + destruct (listSecrets o id (getInfisicalEnvironment w) "/") as [resp | e1 |]; simpl.
      * destruct (succeeds_adoptSecrets (default [] resp) w) as ([] & w' & ->).
        discriminate.
      * intros [= <- <-]. reflexivity.
      * discriminate.
    + intros [= <- <-]. reflexivity.
  - unfold bind, log, modify, throw. simpl. intros [= <- <-]. reflexivity.
  - discriminate.
Qed.

Section Results.
Context {OE : ObjectEntries}.

Lemma setEnv_id w : setEnv (env w) w = w.
Proof. by destruct w. Qed.

Lemma forEach_publish pairs w :
  forEach pairs publish w = (Returns tt, setEnv (foldl publishInto (env w) pairs) w).
Proof.
  revert w. induction pairs as [| kv pairs IH]; intros w; simpl.
  - unfold ret. by rewrite setEnv_id.
  - unfold bind at 1. unfold publish at 1, bind, gets, publishInto at 2. simpl.
    destruct (envFalsy (env w) kv.1); simpl.
    + rewrite IH. simpl. reflexivity.
    + apply IH.
Qed.

Lemma populateEnv_eq w :
  populateEnv w =
  (Returns tt, setEnv (foldl publishInto (env w) (entries (secretsOf w))) w).
Proof. unfold populateEnv, bind, gets. simpl. apply forEach_publish. Qed.

(** ** C8: saving nothing *)

(** C8: when the loader holds no secret, [saveBackup] returns normally
    whatever the disk would have answered; all it does is print the
    warning 'No secrets to save to backup'.  The backup file, present or
    not, is as before and no write took place. *)
Theorem saveBackup_of_nothing (o : Outside) (w : World) :
  secretsOf w = ∅ ->
  saveBackup o w = (Returns tt, addLog NoSecretsToSave w) /\
  level NoSecretsToSave = LevelWarn /\
  backup (snd (saveBackup o w)) = backup w /\
  writes (snd (saveBackup o w)) = writes w.
Proof.
  intros Hempty.
  assert (saveBackup o w = (Returns tt, addLog NoSecretsToSave w)) as E.
  { unfold saveBackup, tryCatch, bind, secretCount, gets. simpl.
    rewrite Hempty, map_size_empty. reflexivity. }
  rewrite E. repeat split.
Qed.

(** ** C7: a polling tick whose fetch fails *)

(** C7: when the re-fetch of a polling tick throws, the tick itself
    returns normally (the error stops in its [catch]); [this.secrets]
    still points to the same object with the same properties, the heap,
    the environment, the backup file and the timer are untouched, and
    the next period runs the callback again. *)
Theorem failed_poll_keeps_secrets (o : Outside) (w : World) (e : Error) (w1 : World) :
  loadSecrets o w = (Throws e, w1) ->
  exists w',
    pollTick o w = (Returns tt, w') /\
    this w' = this w /\ heap w' = heap w /\ secretsOf w' = secretsOf w /\
    env w' = env w /\ backup w' = backup w /\ writes w' = writes w /\
    timers w' = timers w /\
    (0 < timers w ->
     runTick o w = w' /\ forall o', runTick o' w' = snd (pollTick o' w')).
Proof.
  intros Hload. pose proof (loadSecrets_throws _ _ _ _ Hload) as ->.
  exists (addLog (PollFailed e) (addLog (SdkFetchFailed e) w)).
  assert (pollTick o w = (Returns tt, addLog (PollFailed e) (addLog (SdkFetchFailed e) w))) as E.
  { unfold pollTick, tryCatch, bind at 1. unfold secretCount at 1, gets. simpl.
    unfold bind at 1. rewrite Hload. reflexivity. }
  split; [exact E |]. repeat split; try reflexivity.
  - unfold runTick. apply Nat.ltb_lt in H. rewrite H, E. reflexivity.
  - intros o'. unfold runTick. simpl. apply Nat.ltb_lt in H. by rewrite H.
Qed.

(** ** C1: the order of the fallback chain *)

(** A save that throws has only written to the console. *)
Lemma saveBackup_throws o w e w1 :
  saveBackup o w = (Throws e, w1) -> w1 = addLog (BackupSaveFailed e) w.
Proof.
  unfold saveBackup, tryCatch, bind at 1. unfold secretCount, gets. simpl.
  destruct (Nat.eqb (size (secretsOf w)) 0); simpl; [discriminate |].
  unfold bind, gets, await, modify, log, throw. simpl.
  destruct (writeFile o _) as [[] | e1 |]; simpl; try discriminate.
  intros [= <- <-]. reflexivity.
Qed.

(** When the SDK tier throws, the backup file has not been written. *)
Lemma sdkTier_throws_sameDisk o w e w1 :
  sdkTier o w = (Throws e, w1) -> sameDisk w w1.
Proof.
  unfold sdkTier, bind at 1.
  pose proof (initSDK_sameDisk o w) as H1.
  destruct (initSDK o w) as [[[] | e0 |] w0]; simpl in H1; [| by intros [= <- <-] | discriminate].
  unfold bind at 1.
  pose proof (loadSecrets_sameDisk o w0) as H2.
  destruct (loadSecrets o w0) as [[[] | e0 |] w2]; simpl in H2;
    [| intros [= <- <-]; by eapply sameDisk_trans | discriminate].
  unfold bind at 1.
  destruct (saveBackup o w2) as [[[] | e0 |] w3] eqn:E3; [discriminate | | discriminate].
  intros [= <- <-]. apply saveBackup_throws in E3 as ->.
  eapply sameDisk_trans; [exact H1 |]. eapply sameDisk_trans; [exact H2 |]. by split.
Qed.

(** A backup file that can be read is always loaded. *)
Lemma loadBackup_content w data :
  backup w = Content data ->
  exists w', loadBackup w = (Returns tt, w') /\ sameDisk w w'.
Proof.
  intros Hb. pose proof (loadBackup_sameDisk w) as Hd.
  assert (exists w', loadBackup w = (Returns tt, w')) as (w' & E).
  { unfold loadBackup, tryCatch, bind at 1. unfold gets at 1. simpl. rewrite Hb.
    match goal with
    | |- context [bind (parseLines ?ls) ?k w] =>
        assert (succeeds (bind (parseLines ls) k)) as Hs by succeed;
        destruct (Hs w) as ([] & w' & E); rewrite E
    end.
    by exists w'. }
  exists w'. rewrite E in Hd. by split.
Qed.

(** C1: the three ways [initialize] leaves the SDK tier behind.
    (1) The SDK tier throws and the CLI tier returns: [initialize]
    returns, the loader is in CLI mode, and the backup file has not been
    written.  (2) The SDK and CLI tiers throw and a backup file is
    there to be read: [initialize] returns and the loader is in backup
    mode.  (3) All three tiers throw: [initialize] throws, and what it
    throws is the error of the SDK tier. *)
Theorem initialize_fallback_order (o : Outside) (w : World) (sdkError : Error) (w1 : World) :
  sdkTier o w = (Throws sdkError, w1) ->
  (forall w2,
      cliTier o (addLog (SdkInitFailed sdkError) w1) = (Returns tt, w2) ->
      exists w',
        initialize o w = (Returns tt, w') /\
        accessMode w' = CLIActive /\
        backup w' = backup w /\ writes w' = writes w) /\
  (forall cliError w2 data,
      cliTier o (addLog (SdkInitFailed sdkError) w1) = (Throws cliError, w2) ->
      backup w = Content data ->
      exists w',
        initialize o w = (Returns tt, w') /\
        accessMode w' = BackupActive) /\
  (forall cliError w2 backupError w3,
      cliTier o (addLog (SdkInitFailed sdkError) w1) = (Throws cliError, w2) ->
      backupTier (addLog (CliInitFailed cliError) w2) = (Throws backupError, w3) ->
      exists w',
        initialize o w = (Throws sdkError, w') /\
        accessMode w' = Failed).
Proof.
  intros Hsdk. pose proof (sdkTier_throws_sameDisk _ _ _ _ Hsdk) as Hd1.
  split; [| split].
  - intros w2 Hcli.
    assert (console w2 = CliInitialized :: tl (console w2) /\
            sameDisk (addLog (SdkInitFailed sdkError) w1) w2) as [Hc Hd2].
    { revert Hcli. unfold cliTier, bind.
      pose proof (loadFromCLI_sameDisk o (addLog (SdkInitFailed sdkError) w1)) as Hd.
      destruct (loadFromCLI o _) as [[[] | |] w0]; try discriminate.
      unfold log, modify. intros [= <-]. by split. }
    eexists. split.
    + unfold initialize, bind at 1, tryCatch at 1. rewrite Hsdk.
      unfold bind at 1, log at 1, modify at 1, tryCatch at 1. rewrite Hcli.
      apply populateEnv_eq.
    + unfold accessMode. simpl. rewrite Hc. simpl.
      destruct Hd1 as [Hb1 Hw1], Hd2 as [Hb2 Hw2]. simpl in Hb2, Hw2.
      repeat split; congruence.
  - intros cliError w2 data Hcli Hb.
    assert (sameDisk (addLog (SdkInitFailed sdkError) w1) w2) as Hd2.
    { revert Hcli. unfold cliTier, bind.
      pose proof (loadFromCLI_sameDisk o (addLog (SdkInitFailed sdkError) w1)) as Hd.
      destruct (loadFromCLI o _) as [[[] | |] w0]; try discriminate.
      by intros [= <- <-]. }
    destruct (loadBackup_content (addLog (CliInitFailed cliError) w2) data) as (w3 & Hl & _).
    { destruct Hd1 as [Hb1 _], Hd2 as [Hb2 _]. simpl in Hb2 |- *. congruence. }
    eexists. split.
    + unfold initialize, bind at 1, tryCatch at 1. rewrite Hsdk.
      unfold bind at 1, log at 1, modify at 1, tryCatch at 1. rewrite Hcli.
      unfold bind at 1, log at 1, modify at 1, tryCatch at 1.
      unfold backupTier, bind at 1. rewrite Hl.
      unfold log, modify. apply populateEnv_eq.
    + reflexivity.
  - intros cliError w2 backupError w3 Hcli Hbk.
    eexists. split.
    + unfold initialize, bind at 1, tryCatch at 1. rewrite Hsdk.
      unfold bind at 1, log at 1, modify at 1, tryCatch at 1. rewrite Hcli.
      unfold bind at 1, log at 1, modify at 1, tryCatch at 1. rewrite Hbk.
      unfold bind, log, modify, throw. reflexivity.
    + reflexivity.
Qed.

End Results.

Lemma initialize_fallback_order_witness :
  (exists w',
      initialize (Sample.cliOnly (Sample.child "FOO=bar" 0)) (Sample.world ∅) = (Returns tt, w') /\
      accessMode w' = CLIActive /\ backup w' = NoFile /\ writes w' = 0) /\
  (exists w',
      initialize (Sample.cliOnly (Sample.child "" 1)) (Sample.withBackup "A=1" (Sample.world ∅))
        = (Returns tt, w') /\
      accessMode w' = BackupActive) /\
  (exists w',
      initialize (Sample.cliOnly (Sample.child "" 1)) (Sample.world ∅)
        = (Throws missingCredentials, w') /\
      accessMode w' = Failed).
Proof.
  split; [| split].
  - pose (o := Sample.cliOnly (Sample.child "FOO=bar" 0)).
    pose (w := Sample.world ∅).
    destruct (initialize_fallback_order o w missingCredentials w) as (H & _ & _);
      [vm_compute; reflexivity |].
    apply (H (snd (cliTier o (addLog (SdkInitFailed missingCredentials) w)))).
    by_running.
  - pose (o := Sample.cliOnly (Sample.child "" 1)).
    pose (w := Sample.withBackup "A=1" (Sample.world ∅)).
    destruct (initialize_fallback_order o w missingCredentials w) as (_ & H & _);
      [vm_compute; reflexivity |].
    apply (H (exitError 1) (snd (cliTier o (addLog (SdkInitFailed missingCredentials) w))) "A=1").
    + by_running.
    + reflexivity.
  - pose (o := Sample.cliOnly (Sample.child "" 1)).
    pose (w := Sample.world ∅).
    destruct (initialize_fallback_order o w missingCredentials w) as (_ & _ & H);
      [vm_compute; reflexivity |].
    pose (w2 := snd (cliTier o (addLog (SdkInitFailed missingCredentials) w))).
    apply (H (exitError 1) w2 (newError "No backup file found (.env_backup)")
             (snd (backupTier (addLog (CliInitFailed (exitError 1)) w2)))).
    + by_running.
    + by_running.
Defined.

Lemma failed_poll_keeps_secrets_witness :
  exists w',
    pollTick (Sample.cliOnly (Sample.child "" 1)) BackupSample.loaded = (Returns tt, w') /\
    secretsOf w' = secretsOf BackupSample.loaded /\
    timers w' = timers BackupSample.loaded.
Proof.
  destruct (failed_poll_keeps_secrets
              (Sample.cliOnly (Sample.child "" 1)) BackupSample.loaded
              (newError "service unreachable")
              (snd (loadSecrets (Sample.cliOnly (Sample.child "" 1)) BackupSample.loaded)))
    as (w' & H1 & _ & _ & H2 & _ & _ & _ & H3 & _).
  - by_running.
  - exists w'. exact (conj H1 (conj H2 H3)).
Defined.

Lemma saveBackup_of_nothing_witness :
  saveBackup (Sample.sdkOnly []) (Sample.withBackup "A=1" (Sample.world ∅))
    = (Returns tt, addLog NoSecretsToSave (Sample.withBackup "A=1" (Sample.world ∅))) /\
  backup (snd (saveBackup (Sample.sdkOnly []) (Sample.withBackup "A=1" (Sample.world ∅))))
    = Content "A=1".
Proof.
  destruct (saveBackup_of_nothing (Sample.sdkOnly [])
                                  (Sample.withBackup "A=1" (Sample.world ∅)))
    as (H1 & _ & H2 & _).
  - vm_compute. reflexivity.
  - split; [exact H1 | rewrite H2; reflexivity].
Defined.

(** ** C3: environment resolution *)

Lemma truthy_true s : truthy s = true <-> s <> "".
Proof. destruct s; simpl; split; congruence. Qed.

Lemma given_test o v :
  given o v -> truthyOpt o && truthy (trim (orEmpty o)) = true /\ trim (orEmpty o) = v.
Proof.
  intros (s & -> & <- & Hv). simpl. split; [| done].
  apply andb_true_iff. split; apply truthy_true; [| done].
  intros ->. by apply Hv.
Qed.

Lemma notGiven_test o :
  notGiven o -> truthyOpt o && truthy (trim (orEmpty o)) = false.
Proof.
  intros H. destruct o as [s |]; simpl; [| done].
  rewrite (H s eq_refl). apply andb_false_r.
Qed.

Lemma nodeEnv_orEmpty (o : option string) :
  (if truthyOpt o then orEmpty o else "") = orEmpty o.
Proof. destruct o as [[| c s] |]; reflexivity. Qed.

(** C3 (as amended): [getInfisicalEnvironment] is a function of the
    loader and of the process environment: run in any state it returns
    a name and leaves the state as it was.  Moreover
    (1) a constructor override that is not blank wins, trimmed;
    (2) otherwise a non-blank INFISICAL_ENVIRONMENT wins, trimmed;
    (3) otherwise the result is read off NODE_ENV, lower-cased but not
    trimmed: development and dev give development, staging gives
    staging, production and prod give production, and every other value,
    or none, gives development. *)
Theorem environment_precedence (w : World) :
  let cli := cliEnvironment (this w) in
  let explicit := env w !! "INFISICAL_ENVIRONMENT" in
  let stage := toLowerCase (orEmpty (env w !! "NODE_ENV")) in
  gets getInfisicalEnvironment w = (Returns (getInfisicalEnvironment w), w) /\
  (forall v, given cli v -> getInfisicalEnvironment w = v) /\
  (forall v, notGiven cli -> given explicit v -> getInfisicalEnvironment w = v) /\
  (notGiven cli -> notGiven explicit ->
     (stage = "development" \/ stage = "dev" -> getInfisicalEnvironment w = "development") /\
     (stage = "staging" -> getInfisicalEnvironment w = "staging") /\
     (stage = "production" \/ stage = "prod" -> getInfisicalEnvironment w = "production") /\
     (stage <> "development" -> stage <> "dev" -> stage <> "staging" ->
      stage <> "production" -> stage <> "prod" ->
      getInfisicalEnvironment w = "development")).
Proof.
  intros cli explicit stage. split; [reflexivity |]. split; [| split].
  - intros v [Ht Hv]%given_test. unfold getInfisicalEnvironment.
    fold cli. by rewrite Ht.
  - intros v Hc%notGiven_test [Ht Hv]%given_test. unfold getInfisicalEnvironment.
    fold cli explicit. by rewrite Hc, Ht.
  - intros Hc%notGiven_test He%notGiven_test.
    assert (getInfisicalEnvironment w =
            if String.eqb stage "development" then "development"
            else if String.eqb stage "dev" then "development"
            else if String.eqb stage "staging" then "staging"
            else if String.eqb stage "production" then "production"
            else if String.eqb stage "prod" then "production"
            else "development") as ->.
    { unfold getInfisicalEnvironment. fold cli explicit.
      rewrite Hc, He, nodeEnv_orEmpty. reflexivity. }
    repeat split.
    + intros [-> | ->]; reflexivity.
    + intros ->; reflexivity.
    + intros [-> | ->]; reflexivity.
    + intros H1 H2 H3 H4 H5.
      repeat match goal with
             | |- context [String.eqb stage ?s] =>
                 destruct (String.eqb_spec stage s); [done |]
             end.
      reflexivity.
Qed.

(** A blank override is passed over. *)
Lemma blank_override_is_skipped :
  getInfisicalEnvironment
    (setThis (mkLoader 0 false false "/app" (Some "  ") None)
             (Sample.world {["INFISICAL_ENVIRONMENT" := "staging"]}))
  = "staging".
Proof. vm_compute. reflexivity. Qed.

(** C3, as stated, fails: NODE_ENV with a trailing blank is not looked
    up as production. *)
Lemma stage_variable_is_not_trimmed :
  ~ (forall w : World,
        getInfisicalEnvironment w =
        specResolve (cliEnvironment (this w)) (env w !! "INFISICAL_ENVIRONMENT")
                    (env w !! "NODE_ENV")).
Proof.
  intros H.
  assert (getInfisicalEnvironment (Sample.world {["NODE_ENV" := "production "]})
          = "development") as E by (vm_compute; reflexivity).
  rewrite H in E. vm_compute in E. discriminate E.
Qed.

Lemma environment_precedence_witness :
  getInfisicalEnvironment
    (setThis (mkLoader 0 false false "/app" (Some " qa ") None)
             (Sample.world {["INFISICAL_ENVIRONMENT" := "staging"; "NODE_ENV" := "prod"]}))
  = "qa" /\
  getInfisicalEnvironment
    (Sample.world {["INFISICAL_ENVIRONMENT" := "staging"; "NODE_ENV" := "prod"]})
  = "staging" /\
  getInfisicalEnvironment (Sample.world {["NODE_ENV" := "PROD"]}) = "production".
Proof.
  split; [| split].
  - apply (proj1 (proj2 (environment_precedence _))).
    exists " qa ". repeat split. discriminate.
  - apply (proj1 (proj2 (proj2 (environment_precedence _)))).
    + intros s [=].
    + exists "staging". split; [vm_compute; reflexivity |]. split; [reflexivity | discriminate].
  - apply (proj2 (proj2 (proj2 (environment_precedence _)))).
    + intros s [=].
    + intros s. vm_compute. intros [=].
    + right. vm_compute. reflexivity.
Defined.

(** ** Objects in the heap *)

Lemma deref_alloc_new w o :
  deref (setHeap (heap w ++ [o]) w) (length (heap w)) = o.
Proof.
  unfold deref. simpl. apply list_lookup_total_correct.
  by apply list_lookup_middle.
Qed.

Lemma deref_alloc_old w o l :
  l < length (heap w) -> deref (setHeap (heap w ++ [o]) w) l = deref w l.
Proof.
  intros Hl. unfold deref. simpl.
  rewrite !list_lookup_total_alt. by rewrite lookup_app_l.
Qed.

Lemma deref_write_same w l o :
  l < length (heap w) -> deref (setHeap (<[l := o]> (heap w)) w) l = o.
Proof.
  intros Hl. unfold deref. simpl. apply list_lookup_total_correct.
  by apply list_lookup_insert_eq.
Qed.

Lemma setHeap_id w : setHeap (heap w) w = w.
Proof. by destruct w. Qed.

Lemma setHeap_overwrite w l o1 o2 :
  setHeap (<[l := o2]> (heap (setHeap (<[l := o1]> (heap w)) w)))
          (setHeap (<[l := o1]> (heap w)) w)
  = setHeap (<[l := o2]> (heap w)) w.
Proof. unfold setHeap. simpl. by rewrite list_insert_insert_eq. Qed.

Lemma forEach_parseLine lines w :
  wf w ->
  forEach lines parseLine w =
  (Returns tt,
   setHeap (<[secrets (this w) := foldl parseInto (secretsOf w) lines]> (heap w)) w).
Proof.
  revert w. induction lines as [| line lines IH]; intros w Hwf; simpl.
  - unfold ret. f_equal. unfold secretsOf, deref.
    rewrite list_insert_id; [by rewrite setHeap_id |].
    rewrite list_lookup_total_alt.
    destruct (lookup_lt_is_Some_2 (heap w) _ Hwf) as [o Ho]. by rewrite Ho.
  - unfold bind at 1.
    assert (parseLine line w =
            (Returns tt, setHeap (<[secrets (this w) := parseInto (secretsOf w) line]> (heap w)) w))
      as ->.
    { unfold parseLine, parseInto. destruct (0 <? indexOf "=" line)%Z.
      - reflexivity.
      - unfold ret. f_equal. unfold secretsOf, deref.
        rewrite list_insert_id; [by rewrite setHeap_id |].
        rewrite list_lookup_total_alt.
        destruct (lookup_lt_is_Some_2 (heap w) _ Hwf) as [o Ho]. by rewrite Ho. }
    set (w0 := setHeap _ w).
    assert (secretsOf w0 = parseInto (secretsOf w) line) as Hs
      by apply (deref_write_same w _ _ Hwf).
    rewrite IH by (unfold wf, w0; simpl; by rewrite length_insert).
    rewrite Hs. unfold w0. by rewrite setHeap_overwrite.
Qed.

(** After [parseLines], [this.secrets] is a new object that holds what
    the lines define; the objects that were there are untouched. *)
Lemma parseLines_eq lines w :
  exists w',
    parseLines lines w = (Returns tt, w') /\
    secretsOf w' = foldl parseInto ∅ lines /\
    secrets (this w') = length (heap w) /\
    length (heap w') = S (length (heap w)) /\
    (forall l, l < length (heap w) -> deref w' l = deref w l) /\
    env w' = env w /\ console w' = console w /\ backup w' = backup w.
Proof.
  unfold parseLines, bind at 1, newObject, setSecrets, bind, gets, modify, ret. simpl.
  set (w0 := setThis _ _).
  assert (wf w0) as Hwf by (unfold wf, w0; simpl; rewrite length_app; simpl; lia).
  rewrite (forEach_parseLine lines w0 Hwf).
  eexists. split; [reflexivity |].
  assert (secretsOf w0 = ∅) as ->.
  { unfold secretsOf, w0. simpl. apply (deref_alloc_new w ∅). }
  repeat split.
  - unfold secretsOf. simpl. apply (deref_write_same w0 _ _ Hwf).
  - simpl. rewrite length_insert, length_app. simpl. lia.
  - intros l Hl. unfold deref. simpl.
    rewrite !list_lookup_total_alt, list_lookup_insert_ne by lia.
    by rewrite lookup_app_l.
Qed.

Lemma forEach_objSet items l w :
  l < length (heap w) ->
  forEach items (fun item => objSet l (fst item) (snd item)) w =
  (Returns tt, setHeap (<[l := foldl assignItem (deref w l) items]> (heap w)) w).
Proof.
  revert w. induction items as [| item items IH]; intros w Hl; simpl.
  - unfold ret. f_equal. unfold deref.
    rewrite list_insert_id; [by rewrite setHeap_id |].
    rewrite list_lookup_total_alt.
    destruct (lookup_lt_is_Some_2 (heap w) _ Hl) as [o Ho]. by rewrite Ho.
  - unfold bind at 1, objSet at 1, modify.
    set (w0 := setHeap _ w).
    assert (deref w0 l = assignItem (deref w l) item) as Hs
      by apply (deref_write_same w _ _ Hl).
    rewrite IH by (unfold w0; simpl; by rewrite length_insert).
    rewrite Hs. unfold w0. by rewrite setHeap_overwrite.
Qed.

(** After [adoptSecrets], [this.secrets] is a new object that holds the
    items; the objects that were there are untouched. *)
Lemma adoptSecrets_eq items w :
  exists w',
    adoptSecrets items w = (Returns tt, w') /\
    secretsOf w' = foldl assignItem ∅ items /\
    secrets (this w') = length (heap w) /\
    length (heap w') = S (length (heap w)) /\
    (forall l, l < length (heap w) -> deref w' l = deref w l) /\
    env w' = env w /\ backup w' = backup w /\ writes w' = writes w.
Proof.
  unfold adoptSecrets, bind at 1, newObject, bind, gets, modify, ret. simpl.
  set (w0 := setHeap _ w).
  assert (length (heap w) < length (heap w0)) as Hl
    by (unfold w0; simpl; rewrite length_app; simpl; lia).
  rewrite (forEach_objSet items _ w0 Hl).
  eexists. split; [reflexivity |].
  assert (deref w0 (length (heap w)) = ∅) as -> by apply (deref_alloc_new w ∅).
  repeat split.
  - unfold secretsOf. simpl. apply (deref_write_same w0 _ _ Hl).
  - simpl. rewrite length_insert, length_app. simpl. lia.
  - intros l Hlt. unfold deref. simpl.
    rewrite !list_lookup_total_alt, list_lookup_insert_ne by lia.
    by rewrite lookup_app_l.
Qed.

(** *** The loader's reference stays valid *)

Lemma parseLines_keepsWf lines : preserves keepsWf (parseLines lines).
Proof.
  intros w. destruct (parseLines_eq lines w) as (w' & -> & _ & Hs & Hl & _).
  unfold keepsWf, wf. simpl. rewrite Hs, Hl. split; lia.
Qed.

Lemma adoptSecrets_keepsWf items : preserves keepsWf (adoptSecrets items).
Proof.
  intros w. destruct (adoptSecrets_eq items w) as (w' & -> & _ & Hs & Hl & _).
  unfold keepsWf, wf. simpl. rewrite Hs, Hl. split; lia.
Qed.

Ltac keeps_wf :=
  pose proof parseLines_keepsWf; pose proof adoptSecrets_keepsWf;
  preserve keepsWf_refl keepsWf_trans
           ltac:(unfold keepsWf, wf; simpl; rewrite ?length_app, ?length_insert; simpl; lia).

Section Reachable.
Context {OE : ObjectEntries}.

Lemma construct_wf root environment slug w : wf (construct root environment slug w).
Proof. unfold wf, construct. simpl. rewrite length_app. simpl. lia. Qed.

Lemma initialize_keepsWf o : preserves keepsWf (initialize o).
Proof. keeps_wf. Qed.

Lemma pollTick_keepsWf o : preserves keepsWf (pollTick o).
Proof. keeps_wf. Qed.

Lemma getSecrets_keepsWf : preserves keepsWf getSecrets.
Proof. keeps_wf. Qed.

Lemma runTicks_keepsWf os w : keepsWf w (runTicks os w).
Proof.
  revert w. induction os as [| o os IH]; intros w; simpl.
  - apply keepsWf_refl.
  - eapply keepsWf_trans; [| apply IH].
    unfold runTick. destruct (Nat.ltb 0 (timers w)).
    + apply pollTick_keepsWf.
    + apply keepsWf_refl.
Qed.

End Reachable.

(** ** C10: [getSecrets] hands out a copy *)

Section Copy.
Context {OE : ObjectEntries}.

Lemma getSecrets_eq w :
  getSecrets w = (Returns (length (heap w)), setHeap (heap w ++ [secretsOf w]) w).
Proof. reflexivity. Qed.

(** C10: in every state in which [this.secrets] points into the heap
    (every state reached from the constructor does), [getSecrets]
    returns the address of a new object, different from the one
    [this.secrets] points to, holding the same properties, and changes
    nothing else.  Whatever the caller then writes into that object, the
    loader's secrets, the process environment, what [populateEnv] would
    publish, and the properties of the object a later [getSecrets]
    returns are as if the caller had written nothing. *)
Theorem getSecrets_returns_a_copy (w : World) :
  wf w ->
  exists l w1,
    getSecrets w = (Returns l, w1) /\
    l = length (heap w) /\ l <> secrets (this w1) /\
    deref w1 l = secretsOf w /\
    this w1 = this w /\ env w1 = env w /\
    (forall a, a < length (heap w) -> deref w1 a = deref w a) /\
    forall o : gmap string string,
      let w2 := callerWrites l o w1 in
      secretsOf w2 = secretsOf w /\
      env w2 = env w /\
      env (snd (populateEnv w2)) = env (snd (populateEnv w)) /\
      exists l' w3,
        getSecrets w2 = (Returns l', w3) /\ l' <> l /\ deref w3 l' = secretsOf w.
Proof.
  intros Hwf. exists (length (heap w)), (setHeap (heap w ++ [secretsOf w]) w).
  assert (forall o, secretsOf (callerWrites (length (heap w)) o
                                (setHeap (heap w ++ [secretsOf w]) w)) = secretsOf w) as Hkeep.
  { intros o. unfold callerWrites, secretsOf, deref. simpl. unfold wf in Hwf.
    rewrite !list_lookup_total_alt, list_lookup_insert_ne by lia.
    by rewrite lookup_app_l. }
  split; [apply getSecrets_eq |]. split; [reflexivity |].
  split; [simpl; unfold wf in Hwf; lia |].
  split; [apply deref_alloc_new |].
  split; [reflexivity |]. split; [reflexivity |].
  split; [intros a Ha; by apply deref_alloc_old |].
  intros o w2. split; [apply Hkeep |]. split; [reflexivity |]. split.
  - rewrite !populateEnv_eq. simpl. unfold w2. by rewrite Hkeep.
  - exists (length (heap w2)), (setHeap (heap w2 ++ [secretsOf w2]) w2).
    split; [apply getSecrets_eq |]. split.
    + unfold w2, callerWrites. simpl. rewrite length_insert, length_app. simpl. lia.
    + rewrite deref_alloc_new. apply Hkeep.
Qed.

End Copy.

Lemma getSecrets_returns_a_copy_witness :
  let w := snd (initialize (Sample.sdkOnly [("A", "1")]) (Sample.world Sample.credentials)) in
  exists l w1,
    getSecrets w = (Returns l, w1) /\
    secretsOf (callerWrites l {["A" := "tampered"]} w1) = {["A" := "1"]}.
Proof.
  intros w.
  destruct (getSecrets_returns_a_copy w) as (l & w1 & Hg & _ & _ & _ & _ & _ & _ & Hc).
  - apply initialize_keepsWf, construct_wf.
  - exists l, w1. split; [exact Hg |].
    destruct (Hc {["A" := "tampered"]}) as (-> & _). vm_compute. reflexivity.
Defined.

(** ** C5: output of a child that fails *)

(** What the children printed plays no part once all three
    invocations are rejected: a loader that held no secret throws the
    error of the second invocation, and its secrets are still empty. *)
Lemma rejected_invocations_recover_nothing o w workspaceId e1 e2 e3 :
  getProjectId w = (Returns workspaceId, w) ->
  execWithStreaming (exec o (cliCommand (getInfisicalEnvironment w) workspaceId)) = Throws e1 ->
  execWithStreaming (exec o (cliRetryCommand (getInfisicalEnvironment w))) = Throws e2 ->
  execWithStreaming (exec o (cliDebugCommand (getInfisicalEnvironment w))) = Throws e3 ->
  secretsOf w = ∅ ->
  loadFromCLI o w = (Throws e2, addLog (CliLoadFailed e2) (addLog CliRetrying w)).
Proof.
  intros Hid H1 H2 H3 Hempty.
  unfold loadFromCLI, bind at 1, gets at 1. unfold bind at 1. rewrite Hid.
  unfold tryCatch at 1, bind at 1, cliInvoke, tryCatch, await.
  rewrite H1. unfold bind at 1, log at 1, modify at 1. rewrite H2, H3.
  unfold throw at 1. unfold bind, secretCount, gets, log, modify, throw. simpl.
  change (secretsOf (addLog CliRetrying w)) with (secretsOf w).
  rewrite Hempty, map_size_empty. reflexivity.
Qed.

(** C5 (the code at the failing input): the SDK tier is unavailable and
    every invocation of the CLI prints FOO=bar and then exits with
    status 1.  [loadFromCLI] throws the exit error; no secret is
    recovered, and [initialize] fails with the error of the SDK tier. *)
Lemma output_of_a_failed_child_is_lost :
  let o := Sample.cliOnly (Sample.child ("FOO=bar" ++ nl) 1) in
  let w := Sample.world ∅ in
  fst (loadFromCLI o w) = Throws (exitError 1) /\
  secretsOf (snd (loadFromCLI o w)) = ∅ /\
  fst (initialize o w) =
    Throws (newError "INFISICAL_CLIENT_ID and INFISICAL_CLIENT_SECRET are required") /\
  accessMode (snd (initialize o w)) = Failed.
Proof. vm_compute. repeat split. Qed.

(** ** C6: the login prompt *)

Lemma settle_settled b r st : settled st <> None -> settle b r st = st.
Proof. unfold settle. by destruct (settled st). Qed.

Lemma onEvent_settled st ev : settled st <> None -> settled (onEvent st ev) = settled st /\
                                                  killCalled (onEvent st ev) = killCalled st.
Proof.
  intros Hs. destruct ev as [data | data | c | e]; simpl.
  - destruct (includes loginPhrase data); [rewrite settle_settled |]; done.
  - destruct (includes loginPhrase data); [rewrite settle_settled |]; done.
  - destruct (settled st) eqn:E; [by rewrite E | done].
  - by rewrite settle_settled.
Qed.

(** Once the promise is settled, later events change neither its
    outcome nor the kill. *)
Lemma foldl_onEvent_settled evs st :
  settled st <> None ->
  settled (foldl onEvent st evs) = settled st /\
  killCalled (foldl onEvent st evs) = killCalled st.
Proof.
  revert st. induction evs as [| ev evs IH]; intros st Hs; simpl; [done |].
  destruct (onEvent_settled st ev Hs) as [E1 E2].
  destruct (IH (onEvent st ev)) as [E3 E4]; [congruence |].
  split; congruence.
Qed.

Lemma loginError_is_not_exitError n : newError loginPhrase <> exitError n.
Proof. unfold exitError, loginPhrase. intros [=]. Qed.

(** C6 (as amended): when a chunk of standard output or of standard
    error contains the login phrase while the promise is still pending,
    the invocation is rejected at that chunk, whatever the child does
    afterwards, with an error whose message is the phrase (no exit-code
    error has that message), and [process.kill()] is called.  For
    [loadFromCLI] this is a failed invocation like any other: the
    invocation without --projectId follows, and when that one resolves
    its result is the one used; when it is rejected the diagnostic
    invocation follows, and when that one resolves its result is the
    one used. *)
Theorem login_prompt_rejects_the_invocation
    (c : Child) (pre post : list ChildEvent) (ev : ChildEvent) (chunk : string) :
  spawnThrows c = None ->
  streamsMissing c = false ->
  events c = (pre ++ ev :: post)%list ->
  ev = StdoutData chunk \/ ev = StderrData chunk ->
  includes loginPhrase chunk = true ->
  settled (foldl onEvent execInit pre) = None ->
  execWithStreaming c = Throws (newError loginPhrase) /\
  killCalled (execRun c) = true /\
  (forall n, newError loginPhrase <> exitError n) /\
  (forall o environment workspaceId w r,
      exec o (cliCommand environment workspaceId) = c ->
      execWithStreaming (exec o (cliRetryCommand environment)) = Returns r ->
      cliInvoke o environment workspaceId w = (Returns r, addLog CliRetrying w)) /\
  (forall o environment workspaceId w retryError r,
      exec o (cliCommand environment workspaceId) = c ->
      execWithStreaming (exec o (cliRetryCommand environment)) = Throws retryError ->
      execWithStreaming (exec o (cliDebugCommand environment)) = Returns r ->
      cliInvoke o environment workspaceId w = (Returns r, addLog CliRetrying w)).
Proof.
  intros Hspawn Hstreams Hev Hdata Hin Hpending.
  assert (settled (execRun c) = Some (inl (newError loginPhrase)) /\
          killCalled (execRun c) = true) as [Hs Hk].
  { unfold execRun. rewrite Hspawn, Hstreams, Hev, foldl_app. simpl.
    set (st := foldl onEvent execInit pre) in *.
    assert (settled (onEvent st ev) = Some (inl (newError loginPhrase)) /\
            killCalled (onEvent st ev) = true) as [E1 E2].
    { destruct Hdata as [-> | ->]; simpl; rewrite Hin; unfold settle; simpl;
        rewrite Hpending; simpl; split; try reflexivity; apply orb_true_r. }
    destruct (foldl_onEvent_settled post (onEvent st ev)) as [E3 E4]; [congruence |].
    split; congruence. }
  split; [unfold execWithStreaming; by rewrite Hs |].
  split; [exact Hk |].
  split; [apply loginError_is_not_exitError |].
  split.
  - intros o environment workspaceId w r Hc Hretry.
    unfold cliInvoke, tryCatch at 1, await at 1. rewrite Hc.
    unfold execWithStreaming at 1. rewrite Hs.
    unfold bind, log, modify, tryCatch, await. by rewrite Hretry.
  - intros o environment workspaceId w retryError r Hc Hretry Hdebug.
    unfold cliInvoke, tryCatch at 1, await at 1. rewrite Hc.
    unfold execWithStreaming at 1. rewrite Hs.
    unfold bind, log, modify, tryCatch, await. by rewrite Hretry, Hdebug.
Qed.

Lemma login_prompt_rejects_the_invocation_witness :
  execWithStreaming (exec LoginSample.outside (cliCommand "development" "ws-1"))
    = Throws (newError loginPhrase) /\
  cliInvoke LoginSample.outside "development" "ws-1" (Sample.world ∅)
    = (Returns (mkExecResult "FOO=bar" ""), addLog CliRetrying (Sample.world ∅)).
Proof.
  destruct (login_prompt_rejects_the_invocation
              (exec LoginSample.outside (cliCommand "development" "ws-1"))
              [] [Close (Some 1%Z)] (StderrData loginPhrase) loginPhrase)
    as (H1 & _ & _ & H2 & _); try (vm_compute; reflexivity).
  - right. reflexivity.
  - split; [exact H1 |]. apply H2; vm_compute; reflexivity.
Defined.

(** C6, as stated, fails: the login phrase on the first invocation does
    not end [loadFromCLI]; the second invocation is made and its
    secrets are adopted. *)
Lemma login_prompt_is_retried :
  ~ (forall (o : Outside) (w : World) (workspaceId chunk : string),
        fst (getProjectId w) = Returns workspaceId ->
        In (StderrData chunk)
           (events (exec o (cliCommand (getInfisicalEnvironment w) workspaceId))) ->
        includes loginPhrase chunk = true ->
        fst (loadFromCLI o w) = Throws (newError loginPhrase)).
Proof.
  intros H.
  specialize (H LoginSample.outside (Sample.world ∅) "ws-1" loginPhrase).
  assert (fst (loadFromCLI LoginSample.outside (Sample.world ∅)) = Returns tt) as E
    by (vm_compute; reflexivity).
  rewrite E in H.
  discriminate H; [reflexivity | left; reflexivity | vm_compute; reflexivity].
Qed.

(** ** C9: the options of [run] *)

(** C9 (the code at the failing input): [run --env qa --path /app].
    The value of --path reaches the constructor as its environment
    argument and no slug is passed; the value of --env only becomes
    NODE_ENV.  The environment the loader resolves is therefore /app,
    and the secrets are requested for that environment under the fixed
    path /.  With [run --env qa] alone the loader has no override at
    all and resolves development, qa not being in the stage table. *)
Lemma run_passes_path_as_environment :
  let w := snd (runAction (Some "qa") (Some "/app") "/srv" ∅ Sample.echo
                          (Sample.process Sample.credentials)) in
  let w' := snd (runAction (Some "qa") None "/srv" ∅ Sample.echo
                           (Sample.process Sample.credentials)) in
  cliEnvironment (this w) = Some "/app" /\
  cliSlug (this w) = None /\
  env w !! "NODE_ENV" = Some "qa" /\
  getInfisicalEnvironment w = "/app" /\
  secretsOf w !! "ENVIRONMENT" = Some "/app" /\
  secretsOf w !! "SECRET_PATH" = Some "/" /\
  cliEnvironment (this w') = None /\
  getInfisicalEnvironment w' = "development" /\
  secretsOf w' !! "ENVIRONMENT" = Some "development".
Proof. vm_compute. repeat split. Qed.

(** ** Facts about strings *)

Module StringFacts.

#[local] Arguments String.append !s1 s2 : simpl nomatch.

Lemma trimStart_id s : headIs isWhiteSpace s = false -> trimStart s = s.
Proof. destruct s as [| c s]; simpl; [done |]. by intros ->. Qed.

Lemma trimEnd_id s : lastIs isWhiteSpace s = false -> trimEnd s = s.
Proof.
  induction s as [| c s IH]; [done |]. simpl.
  destruct s as [| c' s'].
  - simpl. by intros ->.
  - intros H. rewrite (IH H). reflexivity.
Qed.

Lemma trim_id s :
  headIs isWhiteSpace s = false -> lastIs isWhiteSpace s = false -> trim s = s.
Proof. intros H1 H2. unfold trim. by rewrite (trimStart_id s H1), trimEnd_id. Qed.

Lemma trimEnd_truthy s : truthy (trimEnd s) = negb (allWhiteSpace s).
Proof.
  induction s as [| c s IH]; [done |]. simpl.
  destruct (trimEnd s) as [| c' s'].
  - simpl in IH. apply (f_equal negb) in IH. rewrite negb_involutive in IH. simpl in IH.
    rewrite <- IH, andb_true_r. by destruct (isWhiteSpace c).
  - simpl in IH. apply (f_equal negb) in IH. rewrite negb_involutive in IH. simpl in IH.
    rewrite <- IH, andb_false_r. reflexivity.
Qed.

Lemma allWhiteSpace_trimStart s : allWhiteSpace (trimStart s) = allWhiteSpace s.
Proof.
  induction s as [| c s IH]; [done |]. simpl.
  destruct (isWhiteSpace c) eqn:E; simpl; [exact IH | by rewrite E].
Qed.

(** [line.trim()] is truthy exactly when the line is not blank. *)
Lemma trim_truthy s : truthy (trim s) = negb (allWhiteSpace s).
Proof. unfold trim. by rewrite trimEnd_truthy, allWhiteSpace_trimStart. Qed.

Lemma allWhiteSpace_app a b :
  allWhiteSpace (a ++ b) = allWhiteSpace a && allWhiteSpace b.
Proof. induction a as [| c a IH]; simpl; [done |]. by rewrite IH, andb_assoc. Qed.

Lemma contains_app c a b : contains c (a ++ b) = contains c a || contains c b.
Proof. induction a as [| x a IH]; simpl; [done |]. by rewrite IH, orb_assoc. Qed.

Lemma headIs_app P a b : a <> "" -> headIs P (a ++ b) = headIs P a.
Proof. by destruct a. Qed.

Lemma startsWith_hash_app a b : a <> "" -> startsWith "#" (a ++ b) = startsWith "#" a.
Proof. destruct a as [| c a]; [done |]. intros _. reflexivity. Qed.

Lemma lastIs_cons P c s : s <> "" -> lastIs P (String c s) = lastIs P s.
Proof. by destruct s. Qed.

Lemma lastIs_app P a b : b <> "" -> lastIs P (a ++ b) = lastIs P b.
Proof.
  intros Hb. induction a as [| c a IH]; simpl; [done |].
  destruct (a ++ b) as [| c' r] eqn:E.
  - destruct a; simpl in E; [congruence | discriminate].
  - exact IH.
Qed.

Lemma splitLines_nonempty s : splitLines s <> [].
Proof.
  induction s as [| c s IH]; simpl; [done |].
  destruct (Ascii.eqb c "010"); [done |]. by destruct (splitLines s).
Qed.

Lemma splitLines_one a : contains LF a = false -> splitLines a = [a].
Proof.
  induction a as [| c a IH]; simpl; [done |].
  intros [Hc Ha]%orb_false_iff. unfold LF in Hc.
  rewrite Hc, (IH Ha). reflexivity.
Qed.

Lemma splitLines_app a rest :
  contains LF a = false -> splitLines (a ++ String LF rest) = a :: splitLines rest.
Proof.
  induction a as [| c a IH]; simpl; [done |].
  intros [Hc Ha]%orb_false_iff. unfold LF in Hc.
  rewrite Hc, (IH Ha). reflexivity.
Qed.

(** Splitting what was joined gives the lines back. *)
Lemma splitLines_joinLines ls :
  ls <> [] -> Forall (fun l => contains LF l = false) ls ->
  splitLines (joinLines ls) = ls.
Proof.
  induction ls as [| l ls IH]; [done |]. intros _ Hall.
  apply Forall_cons in Hall as [Hl Hls].
  destruct ls as [| l2 ls].
  - simpl. by apply splitLines_one.
  - change (joinLines (l :: l2 :: ls)) with (l ++ String LF (joinLines (l2 :: ls))).
    rewrite (splitLines_app _ _ Hl), IH; done.
Qed.

Lemma joinLines_nonempty l ls : l <> "" -> joinLines (l :: ls) <> "".
Proof. destruct ls; simpl; [done |]. by destruct l. Qed.

Lemma headIs_joinLines P l ls :
  l <> "" -> headIs P (joinLines (l :: ls)) = headIs P l.
Proof. intros Hl. destruct ls; simpl; [done |]. by apply headIs_app. Qed.

Lemma lastIs_joinLines P ls :
  Forall (fun l => l <> "" /\ lastIs P l = false) ls -> lastIs P (joinLines ls) = false.
Proof.
  induction ls as [| l ls IH]; [done |]. intros Hall.
  apply Forall_cons in Hall as [[Hl HP] Hls].
  destruct ls as [| l2 ls]; [exact HP |].
  change (joinLines (l :: l2 :: ls)) with (l ++ String LF (joinLines (l2 :: ls))).
  rewrite lastIs_app by done.
  rewrite lastIs_cons; [by apply IH |].
  apply joinLines_nonempty. by apply Forall_cons in Hls as [[? _] _].
Qed.

Lemma indexOf_app c a b :
  contains c a = false -> indexOf c (a ++ String c b) = Z.of_nat (String.length a).
Proof.
  induction a as [| x a IH]; simpl.
  - by rewrite Ascii.eqb_refl.
  - intros [Hx Ha]%orb_false_iff. rewrite Hx, (IH Ha).
    destruct (Z.ltb_spec (Z.of_nat (String.length a)) 0); lia.
Qed.

Lemma take_app a b : take (String.length a) (a ++ b) = a.
Proof. induction a as [| x a IH]; simpl; [by destruct b | by rewrite IH]. Qed.

(** A string is what stands before the first [c], then [c], then the
    rest. *)
Lemma indexOf_split c s :
  (0 <= indexOf c s)%Z ->
  s = take (Z.to_nat (indexOf c s)) s ++ String c (drop (S (Z.to_nat (indexOf c s))) s).
Proof.
  induction s as [| x s IH]; simpl; [lia |].
  destruct (Ascii.eqb_spec x c) as [-> | Hne].
  - intros _. simpl. by destruct s.
  - destruct (Z.ltb_spec (indexOf c s) 0) as [Hlt | Hge]; [lia |]. intros _.
    replace (Z.to_nat (indexOf c s + 1)) with (S (Z.to_nat (indexOf c s))) by lia.
    simpl. f_equal. by apply IH.
Qed.

End StringFacts.

(** ** C4: the backup file *)

Import StringFacts.

Section BackupLines.

#[local] Arguments String.append !s1 s2 : simpl nomatch.

Lemma backupLine_facts k v :
  storableKey k = true -> storableValue v = true ->
  backupLine (k, v) <> "" /\
  contains LF (backupLine (k, v)) = false /\
  headIs isWhiteSpace (backupLine (k, v)) = false /\
  lastIs isWhiteSpace (backupLine (k, v)) = false /\
  isEntryLine (backupLine (k, v)) = true /\
  forall o, parseInto o (backupLine (k, v)) = <[k := v]> o.
Proof.
  unfold storableKey, storableValue, backupLine. simpl fst. simpl snd.
  rewrite !andb_true_iff, !negb_true_iff.
  intros [[[[[Hk Heq] Hlf] Hws] Hhash] Hproto] [Hvlf Hvws].
  apply truthy_true in Hk. apply String.eqb_neq in Hproto.
  change ("=" ++ v) with (String "="%char v).
  repeat split.
  - by destruct k.
  - rewrite contains_app. simpl. by rewrite Hlf, Hvlf.
  - by rewrite headIs_app.
  - rewrite lastIs_app by done. destruct v; [reflexivity | exact Hvws].
  - unfold isEntryLine. rewrite trim_truthy, allWhiteSpace_app, startsWith_hash_app by done.
    rewrite Hhash. simpl. by rewrite andb_false_r.
  - intros o. unfold parseInto. rewrite (indexOf_app _ _ _ Heq).
    assert (0 < String.length k) by (destruct k; simpl; [done | lia]).
    destruct (Z.ltb_spec 0 (Z.of_nat (String.length k))); [| lia].
    unfold substring, substringFrom.
    replace (Z.to_nat (Z.of_nat (String.length k)) - Z.to_nat 0)
      with (String.length k) by lia.
    replace (Z.to_nat (Z.of_nat (String.length k) + 1)) with (S (String.length k)) by lia.
    simpl drop at 1. rewrite take_app.
    change (S (String.length k)) with (String.length (String "="%char k)).
    assert (drop (String.length (String "="%char k)) (k ++ String "="%char v) = v) as ->.
    { clear. induction k as [| c k IH]; simpl; [by destruct v | exact IH]. }
    unfold objAssign. by destruct (decide (k = "__proto__")).
Qed.

Lemma filter_all {A} (f : A -> bool) l :
  Forall (fun x => f x = true) l -> List.filter f l = l.
Proof.
  induction 1 as [| x l Hx _ IH]; simpl; [done |]. by rewrite Hx, IH.
Qed.

(** Assigning the entries of an object one by one builds that object. *)
Lemma foldl_insert_union (l : list (string * string)) (acc : gmap string string) :
  foldl (fun o kv => <[fst kv := snd kv]> o) acc l = list_to_map (reverse l) ∪ acc.
Proof.
  revert acc. induction l as [| [k v] l IH]; intros acc; simpl.
  - by rewrite (left_id_L ∅ (∪)).
  - rewrite IH, reverse_cons, list_to_map_app. simpl.
    rewrite <- (assoc_L (∪)). f_equal.
    rewrite insert_union_singleton_l.
    by rewrite <- insert_union_singleton_l, insert_empty, <- insert_union_singleton_l.
Qed.

End BackupLines.

Section RoundTrip.
Context {OE : ObjectEntries}.

Lemma entries_lookup o k v : (k, v) ∈ entries o <-> o !! k = Some v.
Proof. rewrite (entries_perm o). apply elem_of_map_to_list. Qed.

Lemma entries_nonempty o : o <> ∅ -> entries o <> [].
Proof.
  intros Ho He. apply Ho, map_to_list_empty_iff.
  apply Permutation_nil_r. rewrite <- He. symmetry. apply entries_perm.
Qed.

Lemma entries_storable o :
  storable o ->
  Forall (fun kv => storableKey (fst kv) = true /\ storableValue (snd kv) = true) (entries o).
Proof.
  intros Hs. apply Forall_forall. intros [k v] Hin. by apply Hs, entries_lookup.
Qed.

Lemma foldl_parse_backupLines (l : list (string * string)) acc :
  Forall (fun kv => storableKey (fst kv) = true /\ storableValue (snd kv) = true) l ->
  foldl parseInto acc (map backupLine l) = foldl (fun o kv => <[fst kv := snd kv]> o) acc l.
Proof.
  intros Hall. revert acc. induction Hall as [| [k v] l [Hk Hv] _ IH]; intros acc; simpl; [done |].
  destruct (backupLine_facts k v Hk Hv) as (_ & _ & _ & _ & _ & Hp).
  by rewrite Hp, IH.
Qed.

(** Parsing the lines written for an object gives the object back. *)
Lemma parse_saved_lines o :
  storable o -> foldl parseInto ∅ (map backupLine (entries o)) = o.
Proof.
  intros Hs. rewrite (foldl_parse_backupLines _ _ (entries_storable o Hs)).
  rewrite foldl_insert_union, (right_id_L ∅ (∪)).
  rewrite <- (list_to_map_to_list o) at 2.
  apply list_to_map_proper.
  - rewrite reverse_Permutation, (entries_perm o). apply NoDup_fst_map_to_list.
  - rewrite reverse_Permutation. apply entries_perm.
Qed.

(** The text written for an object reads back as its lines. *)
Lemma saved_text_lines o :
  o <> ∅ -> storable o ->
  let lines := map backupLine (entries o) in
  List.filter isEntryLine (splitLines (trim (joinLines lines))) = lines /\
  Forall (fun line => isEntryLine line = true) (splitLines (joinLines lines)).
Proof.
  intros Ho Hs lines.
  assert (Forall (fun line => line <> "" /\ contains LF line = false /\
                              headIs isWhiteSpace line = false /\
                              lastIs isWhiteSpace line = false /\
                              isEntryLine line = true) lines) as Hall.
  { unfold lines. apply Forall_map. eapply Forall_impl; [apply (entries_storable o Hs) |].
    intros [k v] [Hk Hv]. simpl.
    destruct (backupLine_facts k v Hk Hv) as (? & ? & ? & ? & ? & _). done. }
  assert (lines <> []) as Hne.
  { unfold lines. intros E. apply map_eq_nil in E. by apply (entries_nonempty o). }
  assert (trim (joinLines lines) = joinLines lines) as ->.
  { apply trim_id.
    - destruct lines as [| l ls]; [done |].
      apply Forall_cons in Hall as [(Hl & _ & Hh & _) _].
      by rewrite headIs_joinLines.
    - apply lastIs_joinLines. eapply Forall_impl; [exact Hall |]. by intros l (? & ? & ? & ? & ?). }
  assert (splitLines (joinLines lines) = lines) as ->.
  { apply splitLines_joinLines; [done |]. eapply Forall_impl; [exact Hall |]. by intros l (? & ? & ? & ? & ?). }
  split.
  - apply filter_all. eapply Forall_impl; [exact Hall |]. by intros l (? & ? & ? & ? & ?).
  - eapply Forall_impl; [exact Hall |]. by intros l (? & ? & ? & ? & ?).
Qed.

Lemma loadBackup_eq w data :
  backup w = Content data ->
  exists w',
    loadBackup w = (Returns tt, w') /\
    secretsOf w' = foldl parseInto ∅ (List.filter isEntryLine (splitLines (trim data))).
Proof.
  intros Hb. unfold loadBackup, tryCatch, bind at 1. unfold gets at 1. simpl. rewrite Hb.
  unfold bind at 1.
  destruct (parseLines_eq (List.filter isEntryLine (splitLines (trim data))) w)
    as (w' & -> & Hs & _).
  unfold bind, secretCount, gets, log, modify. simpl.
  eexists. split; [reflexivity |]. exact Hs.
Qed.

(** Every property of a parsed object was written on one of the lines. *)
Lemma parseInto_origin lines acc k v :
  foldl parseInto acc lines !! k = Some v ->
  acc !! k = Some v \/ In (k ++ "=" ++ v) lines.
Proof.
  revert acc. induction lines as [| line lines IH]; intros acc; simpl; [by left |].
  intros [H | H]%IH; [| by right; right].
  unfold parseInto in H.
  destruct (Z.ltb_spec 0 (indexOf "=" line)) as [Hpos | _]; [| by left].
  unfold objAssign in H. destruct (decide (_ = "__proto__")); [by left |].
  destruct (decide (substring 0 (indexOf "=" line) line = k)) as [Hk | Hk].
  - rewrite <- Hk, lookup_insert_eq in H. injection H as Hv.
    right. left. rewrite <- Hk, <- Hv.
    unfold substring, substringFrom.
    replace (Z.to_nat (indexOf "=" line) - Z.to_nat 0) with (Z.to_nat (indexOf "=" line)) by lia.
    replace (Z.to_nat (indexOf "=" line + 1)) with (S (Z.to_nat (indexOf "=" line))) by lia.
    simpl drop at 1. apply (indexOf_split "="%char line). lia.
  - rewrite lookup_insert_ne in H by done. by left.
Qed.

(** C4 (as amended): let the loader hold a non-empty set of secrets
    whose keys are non-empty, contain no [=] and no line feed, start
    neither with white space nor with [#] and are not [__proto__], and
    whose values contain no line feed and do not end in white space
    (values may contain [=]).  If the disk accepts the write, then
    [saveBackup] writes a text none of whose lines is blank or starts
    with [#], and [loadBackup] run on the result leaves the loader with
    exactly the secrets it had.  Moreover, for any backup file,
    [loadBackup] takes every secret from a line [key=value] of the
    trimmed text that is neither blank nor starts with [#]: blank lines
    and comment lines contribute nothing. *)
Theorem backup_round_trip (o : Outside) (w : World) :
  secretsOf w <> ∅ ->
  storable (secretsOf w) ->
  (forall text, writeFile o text = Returns tt) ->
  (exists text w1 w2,
      saveBackup o w = (Returns tt, w1) /\
      backup w1 = Content text /\
      Forall (fun line => isEntryLine line = true) (splitLines text) /\
      loadBackup w1 = (Returns tt, w2) /\
      secretsOf w2 = secretsOf w) /\
  (forall (u u' : World) (text : string),
      backup u = Content text ->
      loadBackup u = (Returns tt, u') ->
      forall k v,
        secretsOf u' !! k = Some v ->
        exists line,
          In line (splitLines (trim text)) /\
          isEntryLine line = true /\
          line = k ++ "=" ++ v).
Proof.
  intros Hne Hst Hdisk. split.
  - set (lines := map backupLine (entries (secretsOf w))).
    destruct (saved_text_lines (secretsOf w) Hne Hst) as [Hread Hentry]. fold lines in Hread, Hentry.
    set (w1 := addLog (BackupSaved (size (secretsOf w)))
                      (setBackup (Content (joinLines lines)) w)).
    assert (saveBackup o w = (Returns tt, w1)) as Hsave.
    { unfold saveBackup, tryCatch, bind at 1. unfold secretCount, gets. simpl.
      destruct (Nat.eqb_spec (size (secretsOf w)) 0) as [Hz | _].
      - by apply map_size_empty_iff in Hz.
      - unfold bind, gets, await, modify, log. simpl. by rewrite Hdisk. }
    destruct (loadBackup_eq w1 (joinLines lines) eq_refl) as (w2 & Hload & Hsec).
    exists (joinLines lines), w1, w2.
    split; [exact Hsave |]. split; [reflexivity |]. split; [exact Hentry |].
    split; [exact Hload |].
    rewrite Hsec, Hread. by apply parse_saved_lines.
  - intros u u' text Hb Hload k v Hkv.
    destruct (loadBackup_eq u text Hb) as (u2 & Hload2 & Hsec).
    rewrite Hload in Hload2. injection Hload2 as <-.
    rewrite Hsec in Hkv. apply parseInto_origin in Hkv as [Hkv | Hin].
    + by rewrite lookup_empty in Hkv.
    + apply filter_In in Hin as [Hin Hentry]. by exists (k ++ "=" ++ v).
Qed.

End RoundTrip.

Lemma backup_round_trip_witness :
  exists text w1 w2,
    saveBackup (Sample.sdkOnly []) BackupSample.loaded = (Returns tt, w1) /\
    backup w1 = Content text /\
    loadBackup w1 = (Returns tt, w2) /\
    secretsOf w2 = secretsOf BackupSample.loaded.
Proof.
  assert (secretsOf BackupSample.loaded =
          <["API_KEY" := "abc"]> {["DSN" := "host=db;port=5432"]}) as Hheld
    by (vm_compute; reflexivity).
  destruct (backup_round_trip (Sample.sdkOnly []) BackupSample.loaded)
    as [(text & w1 & w2 & H1 & H2 & _ & H3 & H4) _].
  - rewrite Hheld. intros E. apply (f_equal (fun o => o !! "API_KEY")) in E.
    rewrite lookup_insert_eq, lookup_empty in E. discriminate E.
  - rewrite Hheld. intros k v Hkv.
    apply lookup_insert_Some in Hkv as [[<- <-] | [_ [<- <-]%lookup_singleton_Some]];
      split; reflexivity.
  - reflexivity.
  - exists text, w1, w2. exact (conj H1 (conj H2 (conj H3 H4))).
Defined.

(** C4, as stated, fails: a value of two lines does not survive. *)
Lemma multi_line_value_is_cut :
  ~ (forall (o : Outside) (w : World),
        (forall k v, secretsOf w !! k = Some v -> k <> "" /\ contains "="%char k = false) ->
        (forall text, writeFile o text = Returns tt) ->
        secretsOf (snd (loadBackup (snd (saveBackup o w)))) = secretsOf w).
Proof.
  intros H.
  assert (secretsOf BackupSample.twoLines = {["CERT" := "a" ++ nl ++ "b"]}) as Hheld
    by (vm_compute; reflexivity).
  assert (secretsOf (snd (loadBackup (snd (saveBackup (Sample.sdkOnly [])
                                                      BackupSample.twoLines))))
            !! "CERT" = Some "a") as Hcut by (vm_compute; reflexivity).
  rewrite (H (Sample.sdkOnly []) BackupSample.twoLines), Hheld in Hcut.
  - rewrite lookup_singleton_eq in Hcut. discriminate Hcut.
  - rewrite Hheld. intros k v [<- _]%lookup_singleton_Some.
    split; [discriminate | reflexivity].
  - reflexivity.
Qed.

(** Each restriction of the round trip is needed: a value that ends in
    a blank loses it, a key that starts with a blank loses it, a key
    that starts with [#] is dropped as a comment, and after saving no
    secrets the file that was there before is what is loaded. *)
Lemma restrictions_are_needed :
  secretsOf (BackupSample.reload (BackupSample.holding [("K", "v ")])) = {["K" := "v"]} /\
  secretsOf (BackupSample.reload (BackupSample.holding [(" K", "v")])) = {["K" := "v"]} /\
  secretsOf (BackupSample.reload (BackupSample.holding [("A", "1"); ("#K", "v")]))
    = {["A" := "1"]} /\
  secretsOf (BackupSample.reload (Sample.withBackup "OLD=1" (BackupSample.holding [])))
    = {["OLD" := "1"]}.
Proof. repeat split; vm_compute; reflexivity. Qed.

(** * Further properties of the code *)

(** ** [execWithStreaming]: children that do not ask for a login *)

Section ExecFacts.

#[local] Arguments String.append !s1 s2 : simpl nomatch.

Lemma append_assoc (a b c : string) : (a ++ b) ++ c = a ++ (b ++ c).
Proof. induction a as [| x a IH]; simpl; [done | by rewrite IH]. Qed.

Lemma append_empty_r (a : string) : a ++ "" = a.
Proof. induction a as [| x a IH]; simpl; [done | by rewrite IH]. Qed.

(** Chunks without the phrase only fill the two buffers. *)
Lemma foldl_onEvent_quiet evs st :
  forallb quietChunk evs = true ->
  foldl onEvent st evs =
  mkExecState (outBuf st ++ stdoutOf evs) (errBuf st ++ stderrOf evs)
              (settled st) (killCalled st).
Proof.
  revert st. induction evs as [| ev evs IH]; intros st Hq; simpl.
  - rewrite !append_empty_r. by destruct st.
  - simpl in Hq. apply andb_true_iff in Hq as [Hev Hq].
    rewrite (IH _ Hq).
    destruct ev as [data | data | c | e]; simpl in Hev; try discriminate;
      apply negb_true_iff in Hev; simpl; rewrite Hev; simpl;
      by rewrite ?append_assoc.
Qed.

(** An event that is not a quiet chunk settles a pending promise. *)
Lemma onEvent_settles st ev :
  settled st = None -> quietChunk ev = false -> settled (onEvent st ev) <> None.
Proof.
  intros Hs Hq. destruct ev as [data | data | c | e]; simpl in *.
  - apply negb_false_iff in Hq. rewrite Hq. unfold settle. simpl. by rewrite Hs.
  - apply negb_false_iff in Hq. rewrite Hq. unfold settle. simpl. by rewrite Hs.
  - rewrite Hs. destruct c as [n |]; [destruct (negb (n =? 0)%Z) |];
      unfold settle; by rewrite Hs.
  - unfold settle. by rewrite Hs.
Qed.

Lemma foldl_onEvent_pending evs st :
  settled (foldl onEvent st evs) = None <->
  settled st = None /\ forallb quietChunk evs = true.
Proof.
  revert st. induction evs as [| ev evs IH]; intros st; simpl.
  - split; [done | by intros []].
  - rewrite IH. destruct (quietChunk ev) eqn:Hq; simpl.
    + assert (settled (onEvent st ev) = settled st) as ->; [| done].
      pose proof (foldl_onEvent_quiet [ev] st) as H. simpl in H.
      rewrite H by (by rewrite Hq). reflexivity.
    + split; [| by intros [_ [=]]].
      intros [Hs _]. exfalso.
      destruct (settled st) eqn:E.
      * destruct (onEvent_settled st ev) as [E' _]; [by rewrite E |]. congruence.
      * by apply (onEvent_settles st ev E Hq).
Qed.

(** X1: a child that starts, prints chunks none of which holds the
    login phrase and then closes.  With exit status 0, or ended by a
    signal, the promise resolves with all of standard output and all
    of standard error, in the order printed; with another status [n]
    it is rejected with 'Command failed with exit code n' and the
    output is not handed on.  Either way [kill] is called on the
    child, and what the child emits after the close is of no effect. *)
Theorem quiet_child_outcome (c : Child) (pre post : list ChildEvent) (status : option Z) :
  spawnThrows c = None ->
  streamsMissing c = false ->
  events c = (pre ++ Close status :: post)%list ->
  forallb quietChunk pre = true ->
  execWithStreaming c =
    match status with
    | Some n => if (n =? 0)%Z then Returns (mkExecResult (stdoutOf pre) (stderrOf pre))
                else Throws (exitError n)
    | None => Returns (mkExecResult (stdoutOf pre) (stderrOf pre))
    end /\
  killCalled (execRun c) = true.
Proof.
  intros Hspawn Hstreams Hev Hq.
  unfold execWithStreaming, execRun. rewrite Hspawn, Hstreams, Hev, foldl_app.
  rewrite (foldl_onEvent_quiet pre execInit Hq). cbn [foldl].
  set (st := mkExecState _ _ _ _).
  assert (settled (onEvent st (Close status)) <> None) as Hs
    by (by apply onEvent_settles).
  destruct (foldl_onEvent_settled post _ Hs) as [-> ->].
  destruct status as [n |]; simpl; [destruct (n =? 0)%Z |]; simpl; done.
Qed.

(** X2: the promise of [execWithStreaming] stays pending exactly when
    the child starts with both streams and never emits anything but
    chunks without the login phrase: no close, no error.  Nothing in
    [execWithStreaming] ends the wait. *)
Theorem pending_exactly_when_silent (c : Child) :
  execWithStreaming c = Hangs <->
  spawnThrows c = None /\ streamsMissing c = false /\
  forallb quietChunk (events c) = true.
Proof.
  unfold execWithStreaming, execRun.
  destruct (spawnThrows c) as [e |]; [simpl; split; [discriminate | by intros [[=] _]] |].
  destruct (streamsMissing c); [simpl; split; [discriminate | by intros (_ & [=] & _)] |].
  pose proof (foldl_onEvent_pending (events c) execInit) as H. simpl in H.
  destruct (settled (foldl onEvent execInit (events c))) as [[e | r] |].
  - split; [discriminate |]. intros (_ & _ & Hq).
    discriminate (proj2 H (conj eq_refl Hq)).
  - split; [discriminate |]. intros (_ & _ & Hq).
    discriminate (proj2 H (conj eq_refl Hq)).
  - split; [| done]. intros _. split; [done |]. split; [done |]. by apply H.
Qed.

End ExecFacts.

Lemma quiet_child_outcome_witness :
  execWithStreaming
    (mkChild None false
       [StdoutData "A=1"; StderrData "warn"; StdoutData (nl ++ "B=2"); Close (Some 0%Z);
        StdoutData "late"])
  = Returns (mkExecResult ("A=1" ++ nl ++ "B=2") "warn").
Proof.
  refine (proj1 (quiet_child_outcome _
            [StdoutData "A=1"; StderrData "warn"; StdoutData (nl ++ "B=2")]
            [StdoutData "late"] (Some 0%Z) _ _ _ _)); reflexivity.
Defined.

(** ** [getProjectId], [initSDK] and [getInfisicalEnvironment] *)

(** X3: [getProjectId] returns exactly when [.infisical.json] parses to
    an object whose [workspaceId] is a string that is not blank, and
    what it returns is that string trimmed, so never the empty string.
    It reads and never writes: the state is the same afterwards, also
    when it throws, and it always settles. *)
Theorem getProjectId_returns_iff (w : World) :
  (forall id w',
      getProjectId w = (Returns id, w') <->
      w' = w /\ id <> "" /\ exists s, config w = ConfigJson (JsString s) /\ trim s = id) /\
  snd (getProjectId w) = w /\
  fst (getProjectId w) <> Hangs.
Proof.
  split; [| split].
  - intros id w'. unfold getProjectId.
    destruct (config w) as [| e | msg | [| s | b]] eqn:Hc; simpl.
    + split; [discriminate | by intros (_ & _ & s & [=] & _)].
    + split; [| by intros (_ & _ & s & [=] & _)].
      destruct (String.eqb (name e) "SyntaxError"); [discriminate |].
      destruct (truthy (message e) && includes "workspaceId" (message e)); discriminate.
    + split; [discriminate | by intros (_ & _ & s & [=] & _)].
    + split; [discriminate | by intros (_ & _ & s & [=] & _)].
    + destruct (truthy s) eqn:Ht; simpl.
      * destruct (String.eqb_spec (trim s) "") as [He | Hne]; simpl.
        -- split; [discriminate |]. intros (_ & Hid & s' & [= <-] & <-). done.
        -- split.
           ++ intros [= <- <-]. split; [done |]. split; [done |]. by exists s.
           ++ intros (-> & _ & s' & [= <-] & <-). reflexivity.
      * split; [discriminate |]. intros (_ & Hid & s' & [= <-] & <-).
        destruct s; [exfalso; by apply Hid | discriminate Ht].
    + split; [| by intros (_ & _ & s & [=] & _)].
      destruct b; simpl; discriminate.
  - by apply (preserves_getProjectId (fun w w' => w' = w)).
  - unfold getProjectId. destruct (config w); simpl; try done;
      repeat match goal with
             | |- context [match ?x with _ => _ end] => destruct x; simpl
             end; done.
Qed.

(** X4: [initSDK] fails on the credentials before it reads the config
    file or calls the service.  When the id or the secret is unset or
    empty it throws '... are required'; when both are set but one is
    empty once trimmed and unquoted it throws '... cannot be empty after
    trimming'.  In both cases the state is untouched and the outcome is
    the same whatever the config file holds and whatever the service
    would have answered. *)
Theorem initSDK_checks_credentials_first (o : Outside) (w : World) :
  let clientId := env w !! "INFISICAL_CLIENT_ID" in
  let clientSecret := env w !! "INFISICAL_CLIENT_SECRET" in
  (truthyOpt clientId = false \/ truthyOpt clientSecret = false ->
   initSDK o w = (Throws missingCredentials, w)) /\
  (truthyOpt clientId = true -> truthyOpt clientSecret = true ->
   unquote (trim (orEmpty clientId)) = "" \/ unquote (trim (orEmpty clientSecret)) = "" ->
   initSDK o w = (Throws emptyCredentials, w)).
Proof.
  intros clientId clientSecret. split.
  - intros H. unfold initSDK, bind, gets. simpl. fold clientId clientSecret.
    assert (negb (truthyOpt clientId) || negb (truthyOpt clientSecret) = true) as ->
      by (destruct H as [-> | ->]; simpl; [done | apply orb_true_r]).
    reflexivity.
  - intros H1 H2 H. unfold initSDK, bind, gets. simpl. fold clientId clientSecret.
    rewrite H1, H2. simpl.
    assert (negb (truthy (unquote (trim (orEmpty clientId))))
            || negb (truthy (unquote (trim (orEmpty clientSecret)))) = true) as ->
      by (destruct H as [-> | ->]; simpl; [done | apply orb_true_r]).
    reflexivity.
Qed.

Lemma initSDK_checks_credentials_first_witness :
  initSDK (Sample.sdkOnly []) (Sample.world {["INFISICAL_CLIENT_ID" := "id"]})
    = (Throws missingCredentials, Sample.world {["INFISICAL_CLIENT_ID" := "id"]}) /\
  initSDK (Sample.sdkOnly [])
          (Sample.world {["INFISICAL_CLIENT_ID" := "''"; "INFISICAL_CLIENT_SECRET" := "s"]})
    = (Throws emptyCredentials,
       Sample.world {["INFISICAL_CLIENT_ID" := "''"; "INFISICAL_CLIENT_SECRET" := "s"]}).
Proof.
  split.
  - apply (proj1 (initSDK_checks_credentials_first _ _)). right. reflexivity.
  - apply (proj2 (initSDK_checks_credentials_first _ _)); [reflexivity | reflexivity |].
    left. vm_compute. reflexivity.
Defined.

Section QuoteAndTrimFacts.

#[local] Arguments String.append !s1 s2 : simpl nomatch.

Lemma dropTrailingQuote_snoc s q :
  isQuote q = true -> dropTrailingQuote (s ++ String q "") = s.
Proof.
  intros Hq. induction s as [| c s IH]; simpl.
  - by rewrite Hq.
  - rewrite IH. by destruct s.
Qed.

Lemma dropTrailingQuote_id s :
  lastIs isQuote s = false -> dropTrailingQuote s = s.
Proof.
  induction s as [| c s IH]; [done |]. simpl.
  destruct s as [| c' s'].
  - by intros ->.
  - intros H. by rewrite (IH H).
Qed.

(** X5: the normalisation of the credentials takes one quote, single
    or double, off each end of the value, also when the two differ;
    what stands between them is kept as it is, further quotes
    included.  A value with no quote at either end is unchanged. *)
Theorem unquote_takes_one_pair (s : string) :
  (forall q q', isQuote q = true -> isQuote q' = true ->
                unquote (String q (s ++ String q' "")) = s) /\
  (headIs isQuote s = false -> lastIs isQuote s = false -> unquote s = s).
Proof.
  split.
  - intros q q' Hq Hq'. unfold unquote. simpl. rewrite Hq.
    by apply dropTrailingQuote_snoc.
  - intros Hh Hl. unfold unquote.
    assert (dropLeadingQuote s = s) as ->.
    { destruct s as [| c s]; [done |]. simpl in *. by rewrite Hh. }
    by apply dropTrailingQuote_id.
Qed.

Lemma headIs_trimStart s : headIs isWhiteSpace (trimStart s) = false.
Proof.
  induction s as [| c s IH]; [done |]. simpl.
  destruct (isWhiteSpace c) eqn:E; [exact IH | simpl; exact E].
Qed.

Lemma headIs_trimEnd s :
  headIs isWhiteSpace s = false -> headIs isWhiteSpace (trimEnd s) = false.
Proof.
  destruct s as [| c s]; [done |]. simpl. intros Hc.
  destruct (trimEnd s); [by rewrite Hc | exact Hc].
Qed.

Lemma lastIs_trimEnd s : lastIs isWhiteSpace (trimEnd s) = false.
Proof.
  induction s as [| c s IH]; [done |]. simpl.
  destruct (trimEnd s) as [| c' s'] eqn:E.
  - destruct (isWhiteSpace c) eqn:Hc; [done | simpl; exact Hc].
  - exact IH.
Qed.

(** A trimmed string has no white space at either end. *)
Lemma trim_ends s :
  headIs isWhiteSpace (trim s) = false /\ lastIs isWhiteSpace (trim s) = false.
Proof.
  unfold trim. split; [apply headIs_trimEnd, headIs_trimStart | apply lastIs_trimEnd].
Qed.

(** X6: whatever the overrides and NODE_ENV hold, the environment name
    [getInfisicalEnvironment] resolves is not empty and has no white
    space at its start or end: the name put after [--env=] on the
    command line of the CLI, and sent to the SDK, is never blank. *)
Theorem resolved_environment_is_never_blank (w : World) :
  getInfisicalEnvironment w <> "" /\
  headIs isWhiteSpace (getInfisicalEnvironment w) = false /\
  lastIs isWhiteSpace (getInfisicalEnvironment w) = false.
Proof.
  unfold getInfisicalEnvironment.
  destruct (truthyOpt (cliEnvironment (this w))
            && truthy (trim (orEmpty (cliEnvironment (this w))))) eqn:E1.
  { apply andb_true_iff in E1 as [_ E1]. apply truthy_true in E1.
    split; [exact E1 | apply trim_ends]. }
  destruct (truthyOpt (env w !! "INFISICAL_ENVIRONMENT")
            && truthy (trim (orEmpty (env w !! "INFISICAL_ENVIRONMENT")))) eqn:E2.
  { apply andb_true_iff in E2 as [_ E2]. apply truthy_true in E2.
    split; [exact E2 | apply trim_ends]. }
  repeat match goal with
         | |- context [if String.eqb ?a ?b then _ else _] => destruct (String.eqb a b)
         end; repeat split; discriminate.
Qed.

End QuoteAndTrimFacts.

(** ** [loadSecrets]: the fetched secrets replace the old ones *)

Lemma assignItem_other o item k :
  fst item <> k -> assignItem o item !! k = o !! k.
Proof.
  intros Hne. unfold assignItem, objAssign.
  destruct (decide (item.1 = "__proto__")); [done | by rewrite lookup_insert_ne].
Qed.

(** Items with other keys leave a key as it was. *)
Lemma foldl_assignItem_absent (items : list (string * string)) acc k :
  k ∉ items.*1 -> foldl assignItem acc items !! k = acc !! k.
Proof.
  revert acc. induction items as [| item items IH]; intros acc Hk; simpl; [done |].
  rewrite fmap_cons in Hk. apply not_elem_of_cons in Hk as [Hne Hk].
  rewrite (IH _ Hk). by apply assignItem_other.
Qed.

(** Of several items with one key the last one counts. *)
Lemma foldl_assignItem_last (pre post : list (string * string)) k v acc :
  k ∉ post.*1 -> k <> "__proto__" ->
  foldl assignItem acc (pre ++ (k, v) :: post) !! k = Some v.
Proof.
  intros Hpost Hk. rewrite foldl_app. simpl.
  rewrite (foldl_assignItem_absent _ _ _ Hpost).
  unfold assignItem, objAssign. simpl.
  destruct (decide (k = "__proto__")); [done | apply lookup_insert_eq].
Qed.

(** A fetch returns exactly when the project id can be read, a client
    exists and the service answers. *)
Lemma loadSecrets_returns_iff o w w' :
  loadSecrets o w = (Returns tt, w') <->
  exists id resp,
    getProjectId w = (Returns id, w) /\
    hasClient (this w) = true /\
    listSecrets o id (getInfisicalEnvironment w) "/" = Returns resp /\
    adoptSecrets (default [] resp) w = (Returns tt, w').
Proof.
  unfold loadSecrets, tryCatch, bind at 1.
  pose proof (getProjectId_pure w) as Hp.
  destruct (getProjectId w) as [[id | e0 |] w0]; simpl in Hp; subst w0.
  - unfold bind, gets, await, throw, log, modify. simpl.
    destruct (hasClient (this w)); simpl.
    + destruct (listSecrets o id (getInfisicalEnvironment w) "/") as [resp | e1 |] eqn:Hl; simpl.
      * destruct (succeeds_adoptSecrets (default [] resp) w) as ([] & w2 & E). rewrite E.
        split.
        -- intros [= <-]. by exists id, resp.
        -- intros (id' & resp' & [= <-] & _ & Hl' & E'). congruence.
      * split; [discriminate | intros (? & ? & [= <-] & _ & Hl' & _); congruence].
      * split; [discriminate | intros (? & ? & [= <-] & _ & Hl' & _); congruence].
    + split; [discriminate | by intros (? & ? & _ & [=] & _)].
  - unfold bind, log, modify, throw. simpl.
    split; [discriminate | by intros (? & ? & [=] & _)].
  - split; [discriminate | by intros (? & ? & [=] & _)].
Qed.

(** X7: when a fetch returns, [this.secrets] points to a new object
    built from the answer alone.  The object it pointed to before, like
    every other object, still has the properties it had, so a reader
    of the old object sees no half-way state.  A key the answer does
    not hold is not among the new secrets, even if it was among the old
    ones; of several items with one key the last one counts.  The
    environment and the backup file are as before. *)
Theorem fetch_replaces_the_secrets (o : Outside) (w w' : World) :
  loadSecrets o w = (Returns tt, w') ->
  exists id resp,
    getProjectId w = (Returns id, w) /\
    listSecrets o id (getInfisicalEnvironment w) "/" = Returns resp /\
    secrets (this w') = length (heap w) /\
    (forall l, l < length (heap w) -> deref w' l = deref w l) /\
    (forall k, k ∉ (default [] resp).*1 -> secretsOf w' !! k = None) /\
    (forall pre post k v,
        default [] resp = (pre ++ (k, v) :: post)%list ->
        k ∉ post.*1 -> k <> "__proto__" ->
        secretsOf w' !! k = Some v) /\
    env w' = env w /\ backup w' = backup w /\ writes w' = writes w.
Proof.
  intros (id & resp & Hid & _ & Hlist & Hadopt)%loadSecrets_returns_iff.
  destruct (adoptSecrets_eq (default [] resp) w)
    as (w2 & E & Hs & Href & _ & Hold & Henv & Hb & Hw).
  rewrite Hadopt in E. injection E as <-.
  exists id, resp. repeat split; try done.
  - intros k Hk. rewrite Hs, foldl_assignItem_absent by done. apply lookup_empty.
  - intros pre post k v Hsplit Hpost Hk. rewrite Hs, Hsplit.
    by apply foldl_assignItem_last.
Qed.

Lemma fetch_replaces_the_secrets_witness :
  let w := BackupSample.holding [("OLD", "1"); ("KEEP", "2")] in
  let o := Sample.sdkOnly [("KEEP", "a"); ("NEW", "3"); ("KEEP", "b")] in
  secretsOf w !! "OLD" = Some "1" /\
  secretsOf (snd (loadSecrets o w)) !! "OLD" = None /\
  secretsOf (snd (loadSecrets o w)) !! "KEEP" = Some "b" /\
  deref (snd (loadSecrets o w)) (secrets (this w)) = secretsOf w.
Proof.
  intros w o.
  destruct (fetch_replaces_the_secrets o w (snd (loadSecrets o w)))
    as (id & resp & _ & Hlist & _ & Hold & Habsent & Hlast & _); [by_running |].
  assert (resp = Some [("KEEP", "a"); ("NEW", "3"); ("KEEP", "b")]) as ->
    by (injection Hlist as <-; reflexivity).
  split; [vm_compute; reflexivity |]. split; [| split].
  - apply Habsent. simpl. rewrite !not_elem_of_cons. repeat split; try discriminate.
    apply not_elem_of_nil.
  - apply (Hlast [("KEEP", "a"); ("NEW", "3")] []);
      [reflexivity | apply not_elem_of_nil | discriminate].
  - apply Hold. vm_compute. lia.
Defined.
(** ** [loadFromCLI] *)

(** The invocations only print: the state after them is the state
    before, with or without the line that announces the retry. *)
Lemma cliInvoke_state o environment workspaceId w :
  snd (cliInvoke o environment workspaceId w) = w \/
  snd (cliInvoke o environment workspaceId w) = addLog CliRetrying w.
Proof.
  unfold cliInvoke, tryCatch, await, bind, log, modify, throw. simpl.
  destruct (execWithStreaming (exec o (cliCommand environment workspaceId)));
    [by left | | by left].
  simpl.
  destruct (execWithStreaming (exec o (cliRetryCommand environment)));
    [by right | | by right].
  destruct (execWithStreaming (exec o (cliDebugCommand environment))); by right.
Qed.

Lemma cliInvoke_fields o environment workspaceId w :
  let w1 := snd (cliInvoke o environment workspaceId w) in
  heap w1 = heap w /\ this w1 = this w /\ env w1 = env w /\
  backup w1 = backup w /\ writes w1 = writes w /\ timers w1 = timers w.
Proof.
  intros w1. subst w1.
  by destruct (cliInvoke_state o environment workspaceId w) as [-> | ->].
Qed.

Section CliFacts.
Context {OE : ObjectEntries}.

(** X8: when one of the three invocations of the CLI resolves,
    [loadFromCLI] returns, whatever the output was.  The secrets are
    then a new object filled from the lines of the trimmed standard
    output that are not blank; secrets held before are dropped, and an
    output without any [key=value] line leaves the loader with no
    secret at all and the CLI tier still succeeds.  Nothing is written
    to disk or to the environment. *)
Theorem cli_output_becomes_the_secrets
    (o : Outside) (w w1 : World) (workspaceId : string) (r : ExecResult) :
  getProjectId w = (Returns workspaceId, w) ->
  cliInvoke o (getInfisicalEnvironment w) workspaceId w = (Returns r, w1) ->
  exists w',
    loadFromCLI o w = (Returns tt, w') /\
    secretsOf w' =
      foldl parseInto ∅
            (List.filter (fun line => truthy (trim line)) (splitLines (trim (stdout r)))) /\
    secrets (this w') = length (heap w) /\
    (forall l, l < length (heap w) -> deref w' l = deref w l) /\
    env w' = env w /\ backup w' = backup w /\
    cliTier o w = (Returns tt, addLog CliInitialized w').
Proof.
  intros Hid Hcli.
  pose proof (cliInvoke_fields o (getInfisicalEnvironment w) workspaceId w) as Hf.
  rewrite Hcli in Hf. simpl in Hf. destruct Hf as (Hheap & Hthis & Henv & Hbackup & _).
  destruct (parseLines_eq
              (List.filter (fun line => truthy (trim line)) (splitLines (trim (stdout r)))) w1)
    as (w2 & Hparse & Hsecrets & Hnew & _ & Hold & Henv2 & _ & Hbackup2).
  assert (exists w',
             loadFromCLI o w = (Returns tt, w') /\ secretsOf w' = secretsOf w2 /\
             this w' = this w2 /\ heap w' = heap w2 /\ env w' = env w2 /\
             backup w' = backup w2) as (w' & Hrun & Hs & Ht & Hh & He & Hb).
  { unfold loadFromCLI, bind at 1, gets. simpl. unfold bind at 1. rewrite Hid.
    unfold tryCatch, bind at 1. rewrite Hcli. unfold bind at 1. rewrite Hparse.
    unfold bind, secretCount, gets, when, log, modify, ret. simpl.
    destruct (truthy (stderr r) && truthy (trim (stderr r)));
      destruct (Nat.eqb (size (secretsOf w2)) 0); simpl; eexists; by repeat split. }
  exists w'. rewrite Hs, Hsecrets. split; [exact Hrun |]. split; [reflexivity |].
  split; [by rewrite Ht, Hnew, Hheap |]. split.
  { intros l Hl. unfold deref. rewrite Hh. rewrite <- Hheap in Hl.
    etrans; [apply (Hold l Hl) |]. unfold deref. by rewrite Hheap. }
  split; [congruence |]. split; [congruence |].
  unfold cliTier, bind. rewrite Hrun. reflexivity.
Qed.

Lemma cli_output_becomes_the_secrets_witness :
  exists w',
    loadFromCLI (Sample.cliOnly (Sample.child "" 0)) BackupSample.loaded = (Returns tt, w') /\
    secretsOf BackupSample.loaded <> ∅ /\
    secretsOf w' = ∅.
Proof.
  destruct (cli_output_becomes_the_secrets
              (Sample.cliOnly (Sample.child "" 0)) BackupSample.loaded BackupSample.loaded
              "ws-1" (mkExecResult "" ""))
    as (w' & Hrun & Hs & _); [by_running | by_running |].
  exists w'. split; [exact Hrun |]. split; [| exact Hs].
  intros H. assert (secretsOf BackupSample.loaded !! "API_KEY" = Some "abc") as E
    by (vm_compute; reflexivity).
  rewrite H in E. discriminate E.
Defined.

(** X9: when all the invocations are rejected, what [loadFromCLI] does
    depends on secrets the loader got elsewhere.  With none, it throws
    the error of the invocations; with some (left by an SDK fetch whose
    backup could not be written), it returns, prints a warning and
    keeps them, and the CLI tier reports success. *)
Theorem stale_secrets_mask_a_cli_failure
    (o : Outside) (w w1 : World) (workspaceId : string) (e : Error) :
  getProjectId w = (Returns workspaceId, w) ->
  cliInvoke o (getInfisicalEnvironment w) workspaceId w = (Throws e, w1) ->
  (secretsOf w = ∅ ->
   loadFromCLI o w = (Throws e, addLog (CliLoadFailed e) w1) /\
   cliTier o w = (Throws e, addLog (CliLoadFailed e) w1)) /\
  (secretsOf w <> ∅ ->
   loadFromCLI o w = (Returns tt, addLog (CliPartial (size (secretsOf w)) e) w1) /\
   cliTier o w =
     (Returns tt, addLog CliInitialized (addLog (CliPartial (size (secretsOf w)) e) w1)) /\
   secretsOf (addLog (CliPartial (size (secretsOf w)) e) w1) = secretsOf w).
Proof.
  intros Hid Hcli.
  pose proof (cliInvoke_fields o (getInfisicalEnvironment w) workspaceId w) as Hf.
  rewrite Hcli in Hf. simpl in Hf. destruct Hf as (Hheap & Hthis & _).
  assert (secretsOf w1 = secretsOf w) as Hsame
    by (unfold secretsOf, deref; by rewrite Hheap, Hthis).
  assert (loadFromCLI o w =
          (if Nat.ltb 0 (size (secretsOf w))
           then (Returns tt, addLog (CliPartial (size (secretsOf w)) e) w1)
           else (Throws e, addLog (CliLoadFailed e) w1))) as Hrun.
  { unfold loadFromCLI, bind at 1, gets. simpl. unfold bind at 1. rewrite Hid.
    unfold tryCatch, bind at 1. rewrite Hcli.
    unfold bind, secretCount, gets, log, modify, throw. simpl. rewrite Hsame.
    by destruct (Nat.ltb 0 (size (secretsOf w))). }
  split; intros Hs.
  - rewrite Hs, map_size_empty in Hrun. simpl in Hrun.
    split; [exact Hrun |]. unfold cliTier, bind. by rewrite Hrun.
  - assert (Nat.ltb 0 (size (secretsOf w)) = true) as Hpos.
    { apply Nat.ltb_lt. destruct (size (secretsOf w)) eqn:Hn; [| lia].
      by apply map_size_empty_iff in Hn. }
    rewrite Hpos in Hrun. split; [exact Hrun |]. split; [| exact Hsame].
    unfold cliTier, bind. by rewrite Hrun.
Qed.

End CliFacts.

Lemma stale_secrets_mask_a_cli_failure_witness :
  loadFromCLI (Sample.cliOnly (Sample.child "" 1)) BackupSample.loaded
  = (Returns tt,
     addLog (CliPartial 2 (exitError 1)) (addLog CliRetrying BackupSample.loaded)).
Proof.
  destruct (stale_secrets_mask_a_cli_failure
              (Sample.cliOnly (Sample.child "" 1)) BackupSample.loaded
              (addLog CliRetrying BackupSample.loaded) "ws-1" (exitError 1))
    as [_ H]; [by_running | by_running |].
  assert (size (secretsOf BackupSample.loaded) = 2) as Hsize by (vm_compute; reflexivity).
  destruct H as (Hrun & _).
  - intros Hempty. rewrite Hempty, map_size_empty in Hsize. discriminate Hsize.
  - rewrite Hsize in Hrun. exact Hrun.
Defined.

(** ** The loop that reads [key=value] lines *)

Section ParseFacts.

#[local] Arguments String.append !s1 s2 : simpl nomatch.

Lemma drop_past_key a c b : drop (S (String.length a)) (a ++ String c b) = b.
Proof. induction a as [| x a IH]; simpl; [by destruct b | exact IH]. Qed.

Lemma contains_take_indexOf c s :
  contains c (take (Z.to_nat (indexOf c s)) s) = false.
Proof.
  induction s as [| x s IH]; simpl; [done |].
  destruct (Ascii.eqb_spec x c) as [-> | Hne]; [done |].
  destruct (Z.ltb_spec (indexOf c s) 0) as [Hlt | Hge]; [done |].
  replace (Z.to_nat (indexOf c s + 1)) with (S (Z.to_nat (indexOf c s))) by lia.
  simpl. rewrite IH. by apply Ascii.eqb_neq in Hne as ->.
Qed.

(** A line with [=] past its first character is its key, [=] and its
    value; the key is not empty and holds no [=]. *)
Lemma line_split line :
  (0 < indexOf "=" line)%Z ->
  line = substring 0 (indexOf "=" line) line ++ "=" ++
         substringFrom (indexOf "=" line + 1) line /\
  substring 0 (indexOf "=" line) line <> "" /\
  contains "=" (substring 0 (indexOf "=" line) line) = false.
Proof.
  intros Hpos. unfold substring, substringFrom.
  replace (Z.to_nat (indexOf "=" line) - Z.to_nat 0) with (Z.to_nat (indexOf "=" line)) by lia.
  replace (Z.to_nat (indexOf "=" line + 1)) with (S (Z.to_nat (indexOf "=" line))) by lia.
  simpl drop at 1. split; [apply (indexOf_split "="%char line); lia |].
  split; [| apply contains_take_indexOf].
  destruct line as [| x line]; [simpl in Hpos; lia |].
  destruct (Z.to_nat (indexOf "=" (String x line))) eqn:E; [lia | discriminate].
Qed.

Lemma parseInto_bind k v o :
  k <> "" -> contains "=" k = false -> parseInto o (k ++ "=" ++ v) = objAssign k v o.
Proof.
  intros Hk Heq. unfold parseInto.
  change ("=" ++ v) with (String "="%char v).
  rewrite (indexOf_app _ _ _ Heq).
  assert (0 < String.length k) by (destruct k; simpl; [done | lia]).
  destruct (Z.ltb_spec 0 (Z.of_nat (String.length k))); [| lia].
  unfold substring, substringFrom.
  replace (Z.to_nat (Z.of_nat (String.length k)) - Z.to_nat 0) with (String.length k) by lia.
  replace (Z.to_nat (Z.of_nat (String.length k) + 1)) with (S (String.length k)) by lia.
  simpl drop at 1. by rewrite take_app, drop_past_key.
Qed.

(** A line is the line of one key only. *)
Lemma key_unique k k' v v' :
  contains "=" k = false -> contains "=" k' = false ->
  k ++ "=" ++ v = k' ++ "=" ++ v' -> k = k' /\ v = v'.
Proof.
  intros Hk Hk'. change ("=" ++ v) with (String "="%char v).
  change ("=" ++ v') with (String "="%char v'). intros E.
  assert (String.length k = String.length k') as Hlen.
  { apply Nat2Z.inj. rewrite <- (indexOf_app "="%char k v Hk), E. by apply indexOf_app. }
  split.
  - rewrite <- (take_app k (String "="%char v)), E, Hlen. apply take_app.
  - rewrite <- (drop_past_key k "="%char v), E, Hlen. apply drop_past_key.
Qed.

Lemma parseInto_other k line o :
  (forall v', line <> k ++ "=" ++ v') -> parseInto o line !! k = o !! k.
Proof.
  intros Hline. unfold parseInto.
  destruct (Z.ltb_spec 0 (indexOf "=" line)) as [Hpos | _]; [| done].
  destruct (line_split line Hpos) as (Hsplit & _).
  unfold objAssign. destruct (decide (_ = "__proto__")); [done |].
  apply lookup_insert_ne. intros Hk. apply (Hline (substringFrom (indexOf "=" line + 1) line)).
  by rewrite <- Hk.
Qed.

Lemma foldl_parseInto_other k lines o :
  (forall v', (k ++ "=" ++ v') ∉ lines) -> foldl parseInto o lines !! k = o !! k.
Proof.
  revert o. induction lines as [| line lines IH]; intros o Hno; simpl; [done |].
  rewrite IH.
  - apply parseInto_other. intros v' ->. apply (Hno v'). by left.
  - intros v' Hin. apply (Hno v'). by right.
Qed.

Lemma bindableKey_spec k :
  bindableKey k = true <-> k <> "" /\ contains "=" k = false /\ k <> "__proto__".
Proof.
  unfold bindableKey. rewrite !andb_true_iff, !negb_true_iff, truthy_true, String.eqb_neq.
  tauto.
Qed.

(** One more line that is not a line of [k] changes nothing for [k]. *)
Lemma later_line_of_another_key (lines : list string) x k v :
  (forall v', x <> k ++ "=" ++ v') ->
  (exists pre post, lines = (pre ++ (k ++ "=" ++ v)%string :: post)%list /\
                    forall v', (k ++ "=" ++ v') ∉ post) ->
  exists pre post, (lines ++ [x])%list = (pre ++ (k ++ "=" ++ v)%string :: post)%list /\
                   forall v', (k ++ "=" ++ v') ∉ post.
Proof.
  intros Hx (pre & post & -> & Hno). exists pre, (post ++ [x])%list. split.
  - by rewrite <- app_assoc.
  - intros v' [Hin | Hin]%elem_of_app; [by apply (Hno v') |].
    apply list_elem_of_singleton in Hin. by apply (Hx v').
Qed.

Lemma foldl_parseInto_inv lines k v :
  foldl parseInto ∅ lines !! k = Some v ->
  bindableKey k = true /\
  exists pre post, lines = (pre ++ (k ++ "=" ++ v)%string :: post)%list /\
                   forall v', (k ++ "=" ++ v') ∉ post.
Proof.
  induction lines as [| x lines IH] using rev_ind; [simpl; by rewrite lookup_empty |].
  rewrite foldl_app. simpl. unfold parseInto at 1.
  destruct (Z.ltb_spec 0 (indexOf "=" x)) as [Hpos | Hneg].
  - destruct (line_split x Hpos) as (Hsplit & Hne & Heq).
    set (key := substring 0 (indexOf "=" x) x) in *.
    set (val := substringFrom (indexOf "=" x + 1) x) in *.
    unfold objAssign. destruct (decide (key = "__proto__")) as [Hproto | Hproto].
    + intros [Hb Hex]%IH. split; [exact Hb |].
      apply later_line_of_another_key; [| exact Hex].
      intros v' E. apply bindableKey_spec in Hb as (_ & Hk & Hnp).
      rewrite Hsplit in E. by apply key_unique in E as [<- _].
    + destruct (decide (key = k)) as [<- | Hk].
      * rewrite lookup_insert_eq. intros [= <-]. split; [by apply bindableKey_spec |].
        exists lines, []. split; [by rewrite Hsplit at 1 | intros v'; apply not_elem_of_nil].
      * rewrite lookup_insert_ne by done. intros [Hb Hex]%IH. split; [exact Hb |].
        apply later_line_of_another_key; [| exact Hex].
        intros v' E. apply bindableKey_spec in Hb as (_ & Hk' & _).
        rewrite Hsplit in E. by apply key_unique in E as [? _].
  - intros [Hb Hex]%IH. split; [exact Hb |].
    apply later_line_of_another_key; [| exact Hex].
    intros v' ->. apply bindableKey_spec in Hb as (Hne & Hk & _).
    change ("=" ++ v') with (String "="%char v') in Hneg.
    rewrite (indexOf_app _ _ _ Hk) in Hneg. destruct k; [done | simpl in Hneg; lia].
Qed.

(** X10: the loop that fills [this.secrets] from lines, in
    [loadFromCLI] and in [loadBackup], always returns, and binds a key
    to a value exactly when the key is not empty, holds no [=], is not
    [__proto__], some line is [key=value], and no later line starts
    with [key=].  So the last line of a key counts, the value is all
    that follows the first [=] and may itself hold [=], and lines
    without [=], lines that start with [=] and lines of the key
    [__proto__] bind nothing. *)
Theorem parse_loop_binds_the_last_line (lines : list string) (w : World) :
  exists w',
    parseLines lines w = (Returns tt, w') /\
    forall k v,
      secretsOf w' !! k = Some v <->
      bindableKey k = true /\
      exists pre post, lines = (pre ++ (k ++ "=" ++ v)%string :: post)%list /\
                       forall v', (k ++ "=" ++ v') ∉ post.
Proof.
  destruct (parseLines_eq lines w) as (w' & Hrun & Hs & _).
  exists w'. split; [exact Hrun |]. intros k v. rewrite Hs. split.
  - apply foldl_parseInto_inv.
  - intros (Hb & pre & post & -> & Hno).
    apply bindableKey_spec in Hb as (Hne & Heq & Hproto).
    rewrite foldl_app.
    change (foldl parseInto (parseInto (foldl parseInto ∅ pre) (k ++ "=" ++ v)) post !! k
            = Some v).
    rewrite (foldl_parseInto_other _ _ _ Hno).
    rewrite (parseInto_bind _ _ _ Hne Heq). unfold objAssign.
    destruct (decide (k = "__proto__")); [done | apply lookup_insert_eq].
Qed.

End ParseFacts.

(** ** [saveBackup], [loadBackup] and [populateEnv] *)

Section DiskFacts.
Context {OE : ObjectEntries}.



End DiskFacts.


(** X12: [loadBackup] always settles.  It returns exactly when the
    backup file can be read, whatever the file holds.  Otherwise it
    throws one of two errors of its own, never the error of the file
    system: 'No backup file found' when the file is missing (code
    ENOENT), and 'No backup available ...' for any other failure; the
    secrets the loader holds, the heap and the environment are then as
    before. *)
Theorem loadBackup_outcome (w : World) :
  fst (loadBackup w) <> Hangs /\
  (fst (loadBackup w) = Returns tt <-> exists data, backup w = Content data) /\
  (forall e w',
      loadBackup w = (Throws e, w') ->
      this w' = this w /\ heap w' = heap w /\ env w' = env w /\
      (e = newError "No backup file found (.env_backup)" /\ w' = w /\
       (backup w = NoFile \/
        exists fsError, backup w = Unreadable fsError /\ code fsError = Some "ENOENT")
       \/
       e = newError "No backup available and Infisical is unavailable" /\
       exists fsError,
         backup w = Unreadable fsError /\ code fsError <> Some "ENOENT" /\
         w' = addLog (BackupLoadFailed fsError) w)).
Proof.
  destruct (backup w) as [| fsError | data] eqn:Hb.
  - assert (loadBackup w = (Throws (newError "No backup file found (.env_backup)"), w)) as E.
    { unfold loadBackup, tryCatch, bind, gets. simpl. by rewrite Hb. }
    rewrite E. simpl. split; [done |]. split.
    + split; [done | by intros (? & [=])].
    + intros e w' [= <- <-]. repeat split; try done. left. repeat split; by left.
  - destruct (decide (code fsError = Some "ENOENT")) as [Hc | Hc].
    + assert (loadBackup w = (Throws (newError "No backup file found (.env_backup)"), w)) as E.
      { unfold loadBackup, tryCatch, bind, gets. simpl. rewrite Hb. unfold throw.
        by rewrite (bool_decide_eq_true_2 _ Hc). }
      rewrite E. simpl. split; [done |]. split.
      * split; [done | by intros (? & [=])].
      * intros e w' [= <- <-]. repeat split; try done. left. repeat split.
        right. by exists fsError.
    + assert (loadBackup w =
              (Throws (newError "No backup available and Infisical is unavailable"),
               addLog (BackupLoadFailed fsError) w)) as E.
      { unfold loadBackup, tryCatch, bind, gets. simpl. rewrite Hb. unfold throw.
        by rewrite (bool_decide_eq_false_2 _ Hc). }
      rewrite E. simpl. split; [done |]. split.
      * split; [done | by intros (? & [=])].
      * intros e w' [= <- <-]. repeat split; try done. right. split; [done |].
        by exists fsError.
  - destruct (loadBackup_eq w data Hb) as (w' & E & _). rewrite E. simpl.
    split; [done |]. split; [| discriminate].
    split; [by exists data | done].
Qed.

Section PublishFacts.
Context {OE : ObjectEntries}.







End PublishFacts.

(** ** Polling and the modes of [initialize] *)

Lemma sameMode_refl w : sameMode w w.
Proof. by split. Qed.

Lemma sameMode_trans w1 w2 w3 : sameMode w1 w2 -> sameMode w2 w3 -> sameMode w1 w3.
Proof. intros [] []. split; congruence. Qed.

Lemma keepsClient_refl w : keepsClient w w.
Proof. by intros ?. Qed.

Lemma keepsClient_trans w1 w2 w3 :
  keepsClient w1 w2 -> keepsClient w2 w3 -> keepsClient w1 w3.
Proof. unfold keepsClient. auto. Qed.

Section PollingFacts.
Context {OE : ObjectEntries}.

Ltac mode := preserve sameMode_refl sameMode_trans ltac:(by split).
Ltac client := preserve keepsClient_refl keepsClient_trans ltac:(by intros ?).

Lemma initSDK_sameMode o : preserves sameMode (initSDK o).
Proof. mode. Qed.

Lemma loadSecrets_sameMode o : preserves sameMode (loadSecrets o).
Proof. mode. Qed.

Lemma saveBackup_sameMode o : preserves sameMode (saveBackup o).
Proof. mode. Qed.

Lemma pollTick_sameMode o : preserves sameMode (pollTick o).
Proof. mode. Qed.

Lemma fallbackTiers_sameMode o e : preserves sameMode (fallbackTiers o e ;> populateEnv).
Proof. mode. Qed.

Lemma loadSecrets_keepsClient o : preserves keepsClient (loadSecrets o).
Proof. client. Qed.

Lemma saveBackup_keepsClient o : preserves keepsClient (saveBackup o).
Proof. client. Qed.

Lemma populateEnv_keepsClient : preserves keepsClient populateEnv.
Proof. client. Qed.

Lemma pollTick_keepsClient o : preserves keepsClient (pollTick o).
Proof. client. Qed.

(** The error of a tick stops in its [catch]. *)
Lemma pollTick_no_throw o w e : fst (pollTick o w) <> Throws e.
Proof.
  unfold pollTick, tryCatch.
  match goal with
  | |- context [match ?x with _ => _ end] => destruct x as [[[] | e' |] w0]
  end; simpl; discriminate.
Qed.

Lemma runTicks_sameMode os w : sameMode w (runTicks os w).
Proof.
  revert w. induction os as [| o os IH]; intros w; simpl.
  - apply sameMode_refl.
  - eapply sameMode_trans; [| apply IH].
    unfold runTick. destruct (Nat.ltb 0 (timers w)).
    + apply pollTick_sameMode.
    + apply sameMode_refl.
Qed.

Lemma runTicks_keepsClient os w : keepsClient w (runTicks os w).
Proof.
  revert w. induction os as [| o os IH]; intros w; simpl.
  - apply keepsClient_refl.
  - eapply keepsClient_trans; [| apply IH].
    unfold runTick. destruct (Nat.ltb 0 (timers w)).
    + apply pollTick_keepsClient.
    + apply keepsClient_refl.
Qed.

Lemma runTicks_idle os w : timers w = 0 -> runTicks os w = w.
Proof.
  intros Hw. induction os as [| o os IH]; [done |].
  change (runTicks (o :: os) w) with (runTicks os (runTick o w)).
  assert (runTick o w = w) as -> by (unfold runTick; by rewrite Hw).
  exact IH.
Qed.

(** X14: a polling tick never throws, whatever the service and the
    disk answer.  It neither sets nor clears an interval and leaves
    [usingSDK] alone, so once polling has started it goes on for ever,
    every period running the callback on the state the period before
    left, and a loader without an interval never changes.  A client
    that was created stays. *)
Theorem polling_neither_throws_nor_stops (os : list Outside) (w : World) :
  (forall o e, fst (pollTick o w) <> Throws e) /\
  timers (runTicks os w) = timers w /\
  usingSDK (this (runTicks os w)) = usingSDK (this w) /\
  (hasClient (this w) = true -> hasClient (this (runTicks os w)) = true) /\
  (timers w = 0 -> runTicks os w = w) /\
  (0 < timers w ->
   forall o, runTicks (o :: os) w = runTicks os (snd (pollTick o w)) /\
             0 < timers (snd (pollTick o w))).
Proof.
  split; [intros o e; apply pollTick_no_throw |].
  destruct (runTicks_sameMode os w) as [Ht Hu].
  split; [exact Ht |]. split; [exact Hu |].
  split; [apply runTicks_keepsClient |].
  split; [apply runTicks_idle |].
  intros Hpos o.
  change (runTicks (o :: os) w) with (runTicks os (runTick o w)).
  assert (runTick o w = snd (pollTick o w)) as ->.
  { unfold runTick. apply Nat.ltb_lt in Hpos. by rewrite Hpos. }
  split; [reflexivity |].
  destruct (pollTick_sameMode o w) as [-> _]. exact Hpos.
Qed.

(** What [saveBackup] comes to when there is something to save. *)
Lemma saveBackup_run o w :
  secretsOf w <> ∅ ->
  saveBackup o w =
  match writeFile o (backupText (secretsOf w)) with
  | Returns _ =>
      (Returns tt,
       addLog (BackupSaved (size (secretsOf w)))
              (setBackup (Content (backupText (secretsOf w))) w))
  | Throws e => (Throws e, addLog (BackupSaveFailed e) w)
  | Hangs => (Hangs, w)
  end.
Proof.
  intros Hne. unfold saveBackup, tryCatch, bind at 1. unfold secretCount, gets. simpl.
  destruct (size (secretsOf w)) eqn:Hn; [by apply map_size_empty_iff in Hn |].
  simpl. unfold bind, gets, await, modify, log, throw, backupText. simpl.
  by destruct (writeFile o _) as [[] | e |].
Qed.

(** A save that returns has written the secrets, if there are any. *)
Lemma saveBackup_returns o w w' :
  saveBackup o w = (Returns tt, w') ->
  this w' = this w /\ heap w' = heap w /\ env w' = env w /\ timers w' = timers w /\
  (secretsOf w <> ∅ -> backup w' = Content (backupText (secretsOf w))) /\
  (secretsOf w = ∅ -> backup w' = backup w /\ writes w' = writes w).
Proof.
  destruct (decide (secretsOf w = ∅)) as [He | Hne].
  - unfold saveBackup, tryCatch, bind, secretCount, gets. simpl.
    rewrite He, map_size_empty. simpl. intros [= <-]. by repeat split.
  - rewrite (saveBackup_run o w Hne).
    destruct (writeFile o _) as [[] | e |]; [| discriminate | discriminate].
    intros [= <-]. by repeat split.
Qed.





(** When the SDK tier throws, no interval has been set. *)
Lemma sdkTier_throws_sameMode o w e w1 :
  sdkTier o w = (Throws e, w1) -> sameMode w w1.
Proof.
  unfold sdkTier, bind at 1.
  pose proof (initSDK_sameMode o w) as H1.
  destruct (initSDK o w) as [[[] | e0 |] w0]; simpl in H1; [| by intros [= <- <-] | discriminate].
  unfold bind at 1.
  pose proof (loadSecrets_sameMode o w0) as H2.
  destruct (loadSecrets o w0) as [[[] | e0 |] w2]; simpl in H2;
    [| intros [= <- <-]; by eapply sameMode_trans | discriminate].
  unfold bind at 1.
  destruct (saveBackup o w2) as [[[] | e0 |] w3] eqn:E3; [discriminate | | discriminate].
  intros [= <- <-]. apply saveBackup_throws in E3 as ->.
  eapply sameMode_trans; [exact H1 |]. eapply sameMode_trans; [exact H2 |]. by split.
Qed.

(** The steps of an SDK tier that returns. *)
Lemma sdkTier_returns o w w1 :
  sdkTier o w = (Returns tt, w1) ->
  exists wa wb wc,
    initSDK o w = (Returns tt, wa) /\
    loadSecrets o wa = (Returns tt, wb) /\
    saveBackup o wb = (Returns tt, wc) /\
    w1 = addTimer (addLog PollingStarted (addLog SdkInitialized
           (setThis (withUsingSDK true (this wc)) wc))).
Proof.
  unfold sdkTier, bind at 1.
  destruct (initSDK o w) as [[[] | e0 |] wa] eqn:E1; [| discriminate | discriminate].
  unfold bind at 1.
  destruct (loadSecrets o wa) as [[[] | e0 |] wb] eqn:E2; [| discriminate | discriminate].
  unfold bind at 1.
  destruct (saveBackup o wb) as [[[] | e0 |] wc] eqn:E3; [| discriminate | discriminate].
  unfold startPolling, bind, log, modify. intros [= <-]. by exists wa, wb, wc.
Qed.

(** X16: when the SDK tier throws, [initialize] sets no interval and
    leaves [usingSDK] as it was, whichever of the other tiers serves.
    A loader that came up in CLI mode or in backup mode therefore
    never fetches again: with no interval set before, the secrets, the
    environment and the backup file it ends with are final. *)
Theorem no_polling_outside_sdk_mode
    (o : Outside) (os : list Outside) (w w1 : World) (sdkError : Error) :
  sdkTier o w = (Throws sdkError, w1) ->
  timers (snd (initialize o w)) = timers w /\
  usingSDK (this (snd (initialize o w))) = usingSDK (this w) /\
  (timers w = 0 -> runTicks os (snd (initialize o w)) = snd (initialize o w)).
Proof.
  intros Hsdk.
  assert (initialize o w = (fallbackTiers o sdkError ;> populateEnv) w1) as Hinit.
  { unfold initialize, bind at 1, tryCatch at 1. rewrite Hsdk. reflexivity. }
  assert (sameMode w (snd (initialize o w))) as [Ht Hu].
  { apply (sameMode_trans w w1); [exact (sdkTier_throws_sameMode _ _ _ _ Hsdk) |].
    rewrite Hinit. apply fallbackTiers_sameMode. }
  split; [exact Ht |]. split; [exact Hu |].
  intros H0. apply runTicks_idle. by rewrite Ht.
Qed.

(** X17: when the SDK tier returns, [initialize] returns with the
    loader in SDK mode: [usingSDK] is set, the client exists, exactly
    one more interval is set, and from then on every period runs the
    polling callback.  The backup file holds the text of the fetched
    secrets, unless there are none, in which case the file is as it
    was. *)
Theorem sdk_mode_starts_polling (o : Outside) (w w1 : World) :
  sdkTier o w = (Returns tt, w1) ->
  exists w',
    initialize o w = (Returns tt, w') /\
    accessMode w' = SDKActive /\
    usingSDK (this w') = true /\
    hasClient (this w') = true /\
    timers w' = S (timers w) /\
    secretsOf w' = secretsOf w1 /\
    (secretsOf w' <> ∅ -> backup w' = Content (backupText (secretsOf w'))) /\
    (secretsOf w' = ∅ -> backup w' = backup w /\ writes w' = writes w) /\
    (forall o', runTick o' w' = snd (pollTick o' w')).
Proof.
  intros Hsdk.
  destruct (sdkTier_returns _ _ _ Hsdk) as (wa & wb & wc & H1 & H2 & H3 & Hw1).
  destruct (saveBackup_returns _ _ _ H3) as (Ht & Hh & _ & Htimers & Hfile & Hnone).
  assert (secretsOf wc = secretsOf wb) as Hs by (unfold secretsOf, deref; by rewrite Ht, Hh).
  assert (timers wc = timers w) as Htw.
  { destruct (initSDK_sameMode o w) as [Ha _], (loadSecrets_sameMode o wa) as [Hb _].
    rewrite H1 in Ha. rewrite H2 in Hb. simpl in Ha, Hb. congruence. }
  assert (hasClient (this wc) = true) as Hclient.
  { pose proof (saveBackup_keepsClient o wb) as Hk1.
    pose proof (loadSecrets_keepsClient o wa) as Hk2.
    rewrite H3 in Hk1. rewrite H2 in Hk2. apply Hk1, Hk2.
    by apply loadSecrets_returns_iff in H2 as (? & ? & _ & Hc & _). }
  assert (sameDisk w wb) as [Hbw Hww].
  { pose proof (initSDK_sameDisk o w) as Hd1. pose proof (loadSecrets_sameDisk o wa) as Hd2.
    rewrite H1 in Hd1. rewrite H2 in Hd2. by eapply sameDisk_trans. }
  exists (snd (populateEnv w1)). split.
  { unfold initialize, bind at 1, tryCatch at 1. rewrite Hsdk.
    by rewrite populateEnv_eq. }
  rewrite populateEnv_eq, Hw1.
  split; [reflexivity |]. split; [reflexivity |]. split; [exact Hclient |].
  split; [simpl; by rewrite Htw |]. split; [reflexivity |].
  change (secretsOf (snd _)) with (secretsOf wc).
  change (backup (snd _)) with (backup wc).
  change (writes (snd _)) with (writes wc).
  rewrite Hs. split; [exact Hfile |]. split.
  - intros He. destruct (Hnone He) as [-> ->]. by split.
  - intros o'. unfold runTick. simpl timers. reflexivity.
Qed.

End PollingFacts.


Lemma no_polling_outside_sdk_mode_witness :
  runTicks [Sample.sdkOnly [("A", "1")]]
           (snd (initialize (Sample.cliOnly (Sample.child "FOO=bar" 0)) (Sample.world ∅)))
  = snd (initialize (Sample.cliOnly (Sample.child "FOO=bar" 0)) (Sample.world ∅)).
Proof.
  apply (proj2 (proj2 (no_polling_outside_sdk_mode
                         (Sample.cliOnly (Sample.child "FOO=bar" 0)) _ (Sample.world ∅)
                         (snd (sdkTier (Sample.cliOnly (Sample.child "FOO=bar" 0))
                                       (Sample.world ∅)))
                         missingCredentials ltac:(by_running)))).
  reflexivity.
Defined.

Lemma sdk_mode_starts_polling_witness :
  exists w',
    initialize (Sample.sdkOnly [("A", "1")]) (Sample.world Sample.credentials)
      = (Returns tt, w') /\
    accessMode w' = SDKActive /\
    timers w' = 1.
Proof.
  destruct (sdk_mode_starts_polling
              (Sample.sdkOnly [("A", "1")]) (Sample.world Sample.credentials)
              (snd (sdkTier (Sample.sdkOnly [("A", "1")]) (Sample.world Sample.credentials))))
    as (w' & H1 & H2 & _ & _ & H3 & _); [by_evaluating |].
  exists w'. exact (conj H1 (conj H2 H3)).
Defined.

(** ** The [run] command: what is launched and how the process ends *)

Section RunFacts.
Context {OE : ObjectEntries}.

Lemma arrayIndexOf_absent x argv : x ∉ argv -> arrayIndexOf x argv = (-1)%Z.
Proof.
  induction argv as [| a argv IH]; [done |].
  intros [Hne Hin]%not_elem_of_cons. simpl.
  destruct (String.eqb_spec a x) as [-> | _]; [done |].
  by rewrite (IH Hin).
Qed.

Lemma arrayIndexOf_first x pre post :
  x ∉ pre -> arrayIndexOf x (pre ++ x :: post) = Z.of_nat (length pre).
Proof.
  induction pre as [| a pre IH]; simpl.
  - intros _. by rewrite String.eqb_refl.
  - intros [Hne Hin]%not_elem_of_cons.
    destruct (String.eqb_spec a x) as [-> | _]; [done |].
    rewrite (IH Hin). destruct (Z.ltb_spec (Z.of_nat (length pre)) 0); lia.
Qed.

(** The three shapes of [process.argv] and what the action does on
    each. *)
Lemma runCommand_cases argv spawn environment :
  (("--" ∉ argv \/ exists pre, argv = (pre ++ ["--"])%list /\ "--" ∉ pre) /\
   runCommand argv spawn environment = mkRunResult (Some 1%Z) (Some NoCommandAfterDashes) None)
  \/
  exists pre cmd cmdArgs,
    argv = (pre ++ "--" :: cmd :: cmdArgs)%list /\ ("--" ∉ pre) /\
    launched (runCommand argv spawn environment) = Some (cmd, cmdArgs, environment) /\
    exited (runCommand argv spawn environment) = exitStatus (spawn cmd cmdArgs environment) /\
    said (runCommand argv spawn environment) = complaint (spawn cmd cmdArgs environment).
Proof.
  destruct (decide ("--" ∈ argv)) as [Hin | Hout].
  - apply list_elem_of_split_l in Hin as (pre & post & -> & Hpre).
    unfold runCommand. rewrite (arrayIndexOf_first _ _ _ Hpre), length_app. simpl length.
    destruct post as [| cmd cmdArgs].
    + left. split; [right; by exists pre |].
      match goal with
      | |- context [((_ =? _) || (?c =? ?d))%Z] =>
          destruct (Z.eqb_spec c d) as [_ | Hx];
          [by rewrite orb_true_r | exfalso; apply Hx; simpl; lia]
      end.
    + right. exists pre, cmd, cmdArgs. split; [done |]. split; [done |].
      match goal with
      | |- context [((?a =? ?b) || (?c =? ?d))%Z] =>
          destruct (Z.eqb_spec a b) as [Hx | _]; [lia |];
          destruct (Z.eqb_spec c d) as [Hx | _]; [simpl in Hx; lia |]
      end.
      simpl orb. cbv iota.
      replace (Z.to_nat (Z.of_nat (length pre) + 1)) with (length pre + 1) by lia.
      rewrite drop_app_add. simpl.
      destruct (spawn cmd cmdArgs environment) as [e | e | [c |] |]; simpl; try done.
      by destruct (Z.eqb_spec c 0) as [-> |].
  - left. split; [by left |].
    unfold runCommand. by rewrite (arrayIndexOf_absent _ _ Hout).
Qed.

(** X18: the command the [run] action launches is what follows the
    first [--] of [process.argv]: its first word is the command, the
    rest, later [--] included, are its arguments, and it runs in the
    environment of the process.  Without [--], or with nothing after
    it, the action prints 'No command provided after --' and exits with
    1; the second check, 'No command provided', can never fire.  Once
    launched, the action ends as the child does: with the exit code of
    the child, with 0 when a signal ended it, and with 1 when the child
    could not be started. *)
Theorem run_launches_what_follows_the_first_dashes
    (argv : list string) (spawn : string -> list string -> gmap string string -> Spawned)
    (environment : gmap string string) :
  let r := runCommand argv spawn environment in
  (forall cmd cmdArgs e,
      launched r = Some (cmd, cmdArgs, e) <->
      e = environment /\
      exists pre, argv = (pre ++ "--" :: cmd :: cmdArgs)%list /\ "--" ∉ pre) /\
  (launched r = None -> exited r = Some 1%Z /\ said r = Some NoCommandAfterDashes) /\
  said r <> Some NoCommandProvided /\
  (forall cmd cmdArgs e,
      launched r = Some (cmd, cmdArgs, e) ->
      exited r = exitStatus (spawn cmd cmdArgs e) /\
      said r = complaint (spawn cmd cmdArgs e)).
Proof.
  intros r. subst r.
  destruct (runCommand_cases argv spawn environment)
    as [[Hshape ->] | (pre & cmd & cmdArgs & Hargv & Hpre & Hl & He & Hs)].
  - split; [| split; [done | split; [done | by intros ? ? ? [=]]]].
    intros cmd cmdArgs e. split; [by intros [=] |].
    intros (_ & pre & -> & Hpre). exfalso.
    destruct Hshape as [Hno | (pre' & E & Hpre')].
    + apply Hno. apply elem_of_app. right. by left.
    + assert (arrayIndexOf "--" (pre ++ "--" :: cmd :: cmdArgs)
              = arrayIndexOf "--" (pre' ++ ["--"])) as Hi by (by rewrite E).
      rewrite !arrayIndexOf_first in Hi by done.
      apply (f_equal (@length string)) in E. rewrite !length_app in E. simpl in E. lia.
  - rewrite Hl, He, Hs. split; [| split; [done | split]].
    + intros cmd' cmdArgs' e. split.
      * intros [= <- <- <-]. split; [done |]. by exists pre.
      * intros (-> & pre' & E & Hpre'). rewrite Hargv in E.
        assert (length pre = length pre') as Hlen.
        { apply Nat2Z.inj. rewrite <- (arrayIndexOf_first "--" pre (cmd :: cmdArgs) Hpre), E.
          by apply arrayIndexOf_first. }
        apply app_inj_1 in E as [_ [= <- <-]]; done.
    + by destruct (spawn cmd cmdArgs environment) as [? | ? | [?|] |].
    + by intros ? ? ? [= <- <- <-].
Qed.

End RunFacts.

Section RunMainFacts.
Context {OE : ObjectEntries}.





End RunMainFacts.


(** ** [initSDK]: when it returns *)

Lemma normalised_truthy o : truthy (normalised o) = true -> truthyOpt o = true.
Proof. by destruct o as [[| c s] |]. Qed.

(** X20: [initSDK] returns exactly when the client id and the client
    secret are not empty once trimmed and stripped of a quote at either
    end, [.infisical.json] yields a project id, and the login made with
    the id and the secret in that form is accepted.  The base URL is
    passed to the client only when it is set and not empty in the same
    form.  All that changes is that the loader then has a client. *)
Theorem initSDK_returns_iff (o : Outside) (w w' : World) :
  let clientId := normalised (env w !! "INFISICAL_CLIENT_ID") in
  let clientSecret := normalised (env w !! "INFISICAL_CLIENT_SECRET") in
  let siteUrl := siteUrlOf (env w !! "INFISICAL_BASE_URL") in
  initSDK o w = (Returns tt, w') <->
  clientId <> "" /\ clientSecret <> "" /\
  (exists projectId, getProjectId w = (Returns projectId, w)) /\
  login o clientId clientSecret siteUrl = Returns tt /\
  w' = setThis (withClient (this w)) w.
Proof.
  intros clientId clientSecret siteUrl.
  unfold initSDK, bind at 1, gets at 1, bind at 1, gets at 1, bind at 1, gets at 1.
  fold (normalised (env w !! "INFISICAL_CLIENT_ID")).
  fold (normalised (env w !! "INFISICAL_CLIENT_SECRET")).
  fold (normalised (env w !! "INFISICAL_BASE_URL")).
  fold clientId clientSecret.
  destruct (truthy clientId) eqn:Hid.
  2: { assert (clientId = "") as Hempty by (by destruct clientId).
       split; [| by intros (Hne & _)].
       destruct (negb _ || negb _); [discriminate |]. simpl. discriminate. }
  destruct (truthy clientSecret) eqn:Hsecret.
  2: { assert (clientSecret = "") as Hempty by (by destruct clientSecret).
       split; [| by intros (_ & Hne & _)].
       destruct (negb _ || negb _); [discriminate |]. simpl. discriminate. }
  rewrite (normalised_truthy _ Hid), (normalised_truthy _ Hsecret). simpl.
  assert (clientId <> "" /\ clientSecret <> "") as [Hid' Hsecret']
    by (split; by apply truthy_true).
  assert ((if truthyOpt
                (if truthyOpt (env w !! "INFISICAL_BASE_URL")
                 then Some (normalised (env w !! "INFISICAL_BASE_URL"))
                 else env w !! "INFISICAL_BASE_URL")
           then if truthyOpt (env w !! "INFISICAL_BASE_URL")
                then Some (normalised (env w !! "INFISICAL_BASE_URL"))
                else env w !! "INFISICAL_BASE_URL"
           else None) = siteUrl) as ->.
  { subst siteUrl. unfold siteUrlOf.
    destruct (truthyOpt (env w !! "INFISICAL_BASE_URL")) eqn:Hu; simpl; [| by rewrite Hu].
    by destruct (truthy (normalised (env w !! "INFISICAL_BASE_URL"))). }
  unfold bind at 1. pose proof (getProjectId_pure w) as Hp.
  destruct (getProjectId w) as [[projectId | e |] w0]; simpl in Hp; subst w0.
  - unfold tryCatch, bind, modify, await, log, throw. simpl.
    destruct (login o clientId clientSecret siteUrl) as [[] | e |].
    + split; [intros [= <-]; repeat split; eauto | by intros (_ & _ & _ & _ & ->)].
    + split; [discriminate | by intros (_ & _ & _ & [=] & _)].
    + split; [discriminate | by intros (_ & _ & _ & [=] & _)].
  - split; [discriminate | by intros (_ & _ & (? & [=]) & _)].
  - split; [discriminate | by intros (_ & _ & (? & [=]) & _)].
Qed.
